(** * Git URI codec and path resolution ([extensions/git/src/uri.ts])

    A shallow embedding of the module that names version-controlled
    content through [git:] URIs, together with its symlink-resolving
    helpers.

    - JavaScript strings are sequences of UTF-16 code units: [list N].
    - The two regular expressions of the module are run by a small matcher
      for patterns made of literal units and [.], with [^] and [$].
    - [JSON.stringify] and [JSON.parse] are embedded as a printer and a
      parser over a type of JSON values; objects keep the property order of
      ECMAScript (array indices in ascending order, then creation order).
    - Exceptions are a [result]; the file system is reached through one
      operation, [fs.realpathSync], whose calls are recorded in a log. *)

From Stdlib Require Import List NArith Bool Arith Lia String Ascii DecimalString.
Import ListNotations.
Local Open Scope N_scope.
Local Open Scope list_scope.

(* ================================================================== *)
(** ** JavaScript strings *)

Module JS.

(** A string value: its UTF-16 code units. *)
Definition jsstring := list N.

(** The code units of an ASCII literal. *)
Definition lit (s : string) : jsstring :=
  List.map N_of_ascii (list_ascii_of_string s).

Fixpoint str_eqb (a b : jsstring) : bool :=
  match a, b with
  | [], [] => true
  | x :: a', y :: b' => N.eqb x y && str_eqb a' b'
  | _, _ => false
  end.

(** ToBoolean on a string: only the empty string is falsy. *)
Definition truthy (s : jsstring) : bool :=
  match s with [] => false | _ :: _ => true end.

(** ToBoolean on an optional string ([undefined] is falsy). *)
Definition truthy_opt (s : option jsstring) : bool :=
  match s with Some t => truthy t | None => false end.

(** ToBoolean on an optional boolean. *)
Definition truthy_bool (b : option bool) : bool :=
  match b with Some true => true | _ => false end.

(** What a JavaScript function call produces: a value or an exception. *)
Inductive error : Type :=
| SyntaxError
| TypeError
| SystemError (code : jsstring).

Inductive result (A : Type) : Type :=
| Ok (a : A)
| Throw (e : error).
Arguments Ok {A} a.
Arguments Throw {A} e.

End JS.
Import JS.

(* ================================================================== *)
(** ** Regular expressions

    The module uses [/^git$/] and [/.git$/], both without flags.  A
    pattern is a sequence of atoms, optionally anchored at either end. *)

Module RegExp.

Inductive atom : Type :=
| Dot                (* [.]: any unit but a line terminator *)
| Chr (c : N).       (* a literal unit *)

Record regex : Type := mkRegex {
  at_start : bool;   (* the pattern starts with [^] *)
  atoms : list atom;
  at_end : bool      (* the pattern ends with [$] *)
}.

(** LineTerminator: LF, CR, LS, PS. *)
Definition line_terminator (c : N) : bool :=
  N.eqb c 10 || N.eqb c 13 || N.eqb c 8232 || N.eqb c 8233.

Definition atom_matches (a : atom) (c : N) : bool :=
  match a with
  | Dot => negb (line_terminator c)
  | Chr d => N.eqb c d
  end.

(** Match the atoms at the head of [s]; the rest of the input on success. *)
Fixpoint match_atoms (p : list atom) (s : jsstring) : option jsstring :=
  match p with
  | [] => Some s
  | a :: p' =>
      match s with
      | [] => None
      | c :: s' => if atom_matches a c then match_atoms p' s' else None
      end
  end.

(** A match starting exactly at the head of [s]. *)
Definition match_here (r : regex) (s : jsstring) : option jsstring :=
  match match_atoms (atoms r) s with
  | Some rest =>
      if at_end r then match rest with [] => Some [] | _ => None end
      else Some rest
  | None => None
  end.

(** The leftmost match: the input before it and the input after it. *)
Fixpoint search (r : regex) (s : jsstring) : option (jsstring * jsstring) :=
  match match_here r s with
  | Some rest => Some ([], rest)
  | None =>
      match s with
      | [] => None
      | c :: s' =>
          match search r s' with
          | Some (pre, rest) => Some (c :: pre, rest)
          | None => None
          end
      end
  end.

Definition exec (r : regex) (s : jsstring) : option (jsstring * jsstring) :=
  if at_start r then
    match match_here r s with
    | Some rest => Some ([], rest)
    | None => None
    end
  else search r s.

(** [r.test(s)] *)
Definition test (r : regex) (s : jsstring) : bool :=
  match exec r s with Some _ => true | None => false end.

(** [s.replace(r, by)] for a pattern without the global flag and a
    replacement without [$] references. *)
Definition replace (r : regex) (s by_ : jsstring) : jsstring :=
  match exec r s with
  | Some (pre, rest) => pre ++ by_ ++ rest
  | None => s
  end.

End RegExp.

(* ================================================================== *)
(** ** Resource identifiers *)

Module Uri.

(** Modelled from the spec: the resource-identifier type of the editor API
    ([Uri] of the [vscode] module) is declared outside this file.  It is
    a generic resource identifier; its components are those of a URI. *)
Record t : Type := mk {
  scheme : jsstring;
  authority : jsstring;
  path : jsstring;
  query : jsstring;
  fragment : jsstring
}.

(** The argument of [with]: a field that is left out is [undefined]. *)
Record change : Type := mkChange {
  c_scheme : option jsstring;
  c_authority : option jsstring;
  c_path : option jsstring;
  c_query : option jsstring;
  c_fragment : option jsstring
}.

Definition no_change : change := mkChange None None None None None.

Definition pick (c : option jsstring) (old : jsstring) : jsstring :=
  match c with Some v => v | None => old end.

(** Modelled from the spec: [Uri.with] belongs to the editor API and is
    not part of this file.  Section 6 describes it as an immutable
    constructor that returns a modified copy: the fields given replace
    those of the identifier, the others are kept. *)
Definition with_ (u : t) (c : change) : t :=
  mk (pick (c_scheme c) (scheme u))
     (pick (c_authority c) (authority u))
     (pick (c_path c) (path u))
     (pick (c_query c) (query u))
     (pick (c_fragment c) (fragment u)).

(** [{...uri}]: the own properties of an identifier, as a [with] argument. *)
Definition spread (u : t) : change :=
  mkChange (Some (scheme u)) (Some (authority u)) (Some (path u))
           (Some (query u)) (Some (fragment u)).

Definition set_path (c : change) (p : jsstring) : change :=
  mkChange (c_scheme c) (c_authority c) (Some p) (c_query c) (c_fragment c).

Definition set_query (c : change) (q : jsstring) : change :=
  mkChange (c_scheme c) (c_authority c) (c_path c) (Some q) (c_fragment c).

End Uri.

(* ================================================================== *)
(** ** JSON values, [JSON.stringify] and [JSON.parse] *)

Module JSON.

(** A value that [JSON.parse] can produce.  A number is kept as the
    decimal literal that denotes it: its rounding to a double is not
    modelled. *)
#[warnings="-register-all"]
Inductive json : Type :=
| JNull
| JBool (b : bool)
| JNum (n : jsstring)
| JStr (s : jsstring)
| JArr (l : list json)
| JObj (o : list (jsstring * json)).

(** An ordinary object: its own enumerable data properties, in the order
    in which [OrdinaryOwnPropertyKeys] lists them. *)
Definition obj := list (jsstring * json).

Definition is_digit (c : N) : bool := (48 <=? c) && (c <=? 57).

Fixpoint dec_value (acc : N) (k : jsstring) : option N :=
  match k with
  | [] => Some acc
  | c :: r => if is_digit c then dec_value (10 * acc + (c - 48)) r else None
  end.

(** A property key that is an array index: the canonical decimal string
    of an integer below 2^32 - 1. *)
Definition array_index (k : jsstring) : option N :=
  match k with
  | [] => None
  | c :: r =>
      if (c =? 48) && truthy r then None
      else match dec_value 0 k with
           | Some n => if n <? 4294967295 then Some n else None
           | None => None
           end
  end.

Fixpoint obj_get (k : jsstring) (o : obj) : option json :=
  match o with
  | [] => None
  | (k', v) :: r => if str_eqb k k' then Some v else obj_get k r
  end.

(** The names of the own properties, in order. *)
Definition keys (o : obj) : list jsstring := List.map fst o.

Definition has_key (k : jsstring) (o : obj) : bool :=
  match obj_get k o with Some _ => true | None => false end.

Fixpoint update (k : jsstring) (v : json) (o : obj) : obj :=
  match o with
  | [] => []
  | (k', v') :: r =>
      if str_eqb k k' then (k', v) :: r else (k', v') :: update k v r
  end.

Fixpoint insert_index (n : N) (k : jsstring) (v : json) (o : obj) : obj :=
  match o with
  | [] => [(k, v)]
  | (k', v') :: r =>
      match array_index k' with
      | Some m => if m <? n then (k', v') :: insert_index n k v r
                  else (k, v) :: o
      | None => (k, v) :: o
      end
  end.

(** [CreateDataProperty]: an existing property keeps its place and gets
    the new value; a new array index goes among the indices, in ascending
    order; any other new key goes last. *)
Definition obj_set (k : jsstring) (v : json) (o : obj) : obj :=
  if has_key k o then update k v o
  else match array_index k with
       | Some n => insert_index n k v o
       | None => o ++ [(k, v)]
       end.

(** Define the properties [props], in order, on [target]. *)
Definition define_all (target props : obj) : obj :=
  fold_left (fun acc kv => obj_set (fst kv) (snd kv) acc) props target.

Definition dec_string (n : N) : jsstring :=
  lit (NilZero.string_of_uint (N.to_uint n)).

Fixpoint indexed (i : N) (l : list json) : obj :=
  match l with
  | [] => []
  | x :: r => (dec_string i, x) :: indexed (N.succ i) r
  end.

(** The own enumerable properties of a value, as [CopyDataProperties]
    reads them: those of an object, the elements of an array, the units
    of a string; a number, a boolean and [null] have none. *)
Definition own_enumerable (v : json) : obj :=
  match v with
  | JObj o => o
  | JArr l => indexed 0 l
  | JStr s => indexed 0 (List.map (fun c => JStr [c]) s)
  | _ => []
  end.

(** [{...v}] *)
Definition spread (v : json) : obj := define_all [] (own_enumerable v).

(** *** QuoteJSONString *)

Definition hex_digit (d : N) : N := if d <? 10 then 48 + d else 87 + d.

(** [\uXXXX] with lower-case digits. *)
Definition unicode_escape (c : N) : jsstring :=
  [92; 117; hex_digit (c / 4096 mod 16); hex_digit (c / 256 mod 16);
   hex_digit (c / 16 mod 16); hex_digit (c mod 16)].

Definition is_high_surrogate (c : N) : bool := (55296 <=? c) && (c <=? 56319).
Definition is_low_surrogate (c : N) : bool := (56320 <=? c) && (c <=? 57343).
Definition is_surrogate (c : N) : bool := (55296 <=? c) && (c <=? 57343).

(** A code point that is not the first half of a surrogate pair. *)
Definition quote_unit (c : N) : jsstring :=
  if c =? 8 then [92; 98]
  else if c =? 9 then [92; 116]
  else if c =? 10 then [92; 110]
  else if c =? 12 then [92; 102]
  else if c =? 13 then [92; 114]
  else if c =? 34 then [92; 34]
  else if c =? 92 then [92; 92]
  else if (c <? 32) || is_surrogate c then unicode_escape c
  else [c].

Fixpoint quote_body (s : jsstring) : jsstring :=
  match s with
  | [] => []
  | c :: r =>
      if is_high_surrogate c then
        match r with
        | d :: r' =>
            if is_low_surrogate d then c :: d :: quote_body r'
            else unicode_escape c ++ quote_body r
        | [] => unicode_escape c
        end
      else quote_unit c ++ quote_body r
  end.

Definition quote (s : jsstring) : jsstring := 34 :: quote_body s ++ [34].

Section Stringify.

(** [Number::toString] of the double that a literal denotes ([null] for
    one that is not finite). *)
Variable NumberToString : jsstring -> jsstring.

Definition join_with_comma (parts : list jsstring) : jsstring :=
  match parts with
  | [] => []
  | p :: ps => p ++ flat_map (fun q => 44 :: q) ps
  end.

(** [JSON.stringify(v)] with no replacer and no indentation. *)
Fixpoint stringify (v : json) : jsstring :=
  match v with
  | JNull => lit "null"
  | JBool true => lit "true"
  | JBool false => lit "false"
  | JNum n => NumberToString n
  | JStr s => quote s
  | JArr l => 91 :: join_with_comma (List.map stringify l) ++ [93]
  | JObj o =>
      123 :: join_with_comma
               (List.map (fun kv => quote (fst kv) ++ 58 :: stringify (snd kv)) o)
          ++ [125]
  end.

End Stringify.

(** *** The JSON grammar, as [JSON.parse] reads it *)

Definition is_ws (c : N) : bool :=
  (c =? 9) || (c =? 10) || (c =? 13) || (c =? 32).

Fixpoint skip_ws (s : jsstring) : jsstring :=
  match s with
  | c :: r => if is_ws c then skip_ws r else s
  | [] => []
  end.

(** The rest of [s] after the unit [c], when [s] starts with it. *)
Definition expect (c : N) (s : jsstring) : option jsstring :=
  match s with
  | x :: r => if x =? c then Some r else None
  | [] => None
  end.

Fixpoint expect_all (w s : jsstring) : option jsstring :=
  match w with
  | [] => Some s
  | c :: w' =>
      match expect c s with
      | Some r => expect_all w' r
      | None => None
      end
  end.

Definition hex_value (c : N) : option N :=
  if is_digit c then Some (c - 48)
  else if (97 <=? c) && (c <=? 102) then Some (c - 87)
  else if (65 <=? c) && (c <=? 70) then Some (c - 55)
  else None.

Definition hex4_value (a b c d : N) : option N :=
  match hex_value a, hex_value b, hex_value c, hex_value d with
  | Some x, Some y, Some z, Some w => Some (4096 * x + 256 * y + 16 * z + w)
  | _, _, _, _ => None
  end.

(** The unit that the escape [\e] denotes. *)
Definition simple_escape (e : N) : option N :=
  if e =? 34 then Some 34
  else if e =? 92 then Some 92
  else if e =? 47 then Some 47
  else if e =? 98 then Some 8
  else if e =? 102 then Some 12
  else if e =? 110 then Some 10
  else if e =? 114 then Some 13
  else if e =? 116 then Some 9
  else None.

Definition cons_unit (c : N) (r : option (jsstring * jsstring))
  : option (jsstring * jsstring) :=
  match r with
  | Some (s, rest) => Some (c :: s, rest)
  | None => None
  end.

(** A string after its opening quote: its value and the input after its
    closing quote. *)
Fixpoint parse_string_body (s : jsstring) : option (jsstring * jsstring) :=
  match s with
  | [] => None
  | c :: r =>
      if c =? 34 then Some ([], r)
      else if c =? 92 then
        match r with
        | [] => None
        | e :: r1 =>
            if e =? 117 then
              match r1 with
              | h1 :: h2 :: h3 :: h4 :: r2 =>
                  match hex4_value h1 h2 h3 h4 with
                  | Some u => cons_unit u (parse_string_body r2)
                  | None => None
                  end
              | _ => None
              end
            else
              match simple_escape e with
              | Some u => cons_unit u (parse_string_body r1)
              | None => None
              end
        end
      else if c <? 32 then None
      else cons_unit c (parse_string_body r)
  end.

Fixpoint drop_digits (s : jsstring) : jsstring :=
  match s with
  | c :: r => if is_digit c then drop_digits r else s
  | [] => []
  end.

Definition all_digits1 (s : jsstring) : bool :=
  match s with
  | c :: r => is_digit c && negb (truthy (drop_digits r))
  | [] => false
  end.

Definition valid_exp (s : jsstring) : bool :=
  match s with
  | [] => true
  | e :: r =>
      if (e =? 101) || (e =? 69) then
        match r with
        | g :: r' => if (g =? 43) || (g =? 45) then all_digits1 r'
                     else all_digits1 r
        | [] => false
        end
      else false
  end.

Definition valid_frac (s : jsstring) : bool :=
  match s with
  | c :: r =>
      if c =? 46 then
        match r with
        | d :: r' => is_digit d && valid_exp (drop_digits r')
        | [] => false
        end
      else valid_exp s
  | [] => true
  end.

Definition valid_int (s : jsstring) : bool :=
  match s with
  | c :: r =>
      if c =? 48 then valid_frac r
      else if is_digit c then valid_frac (drop_digits r)
      else false
  | [] => false
  end.

(** JSONNumber: an optional minus sign; a zero, or a non-zero digit and
    digits; optionally a point and one digit or more; optionally an
    exponent mark, an optional sign and one digit or more. *)
Definition valid_number (s : jsstring) : bool :=
  match s with
  | c :: r => if c =? 45 then valid_int r else valid_int s
  | [] => false
  end.

Definition is_numchar (c : N) : bool :=
  is_digit c || (c =? 45) || (c =? 43) || (c =? 46) || (c =? 101) || (c =? 69).

Fixpoint span_numchars (s : jsstring) : jsstring * jsstring :=
  match s with
  | c :: r =>
      if is_numchar c then
        let '(n, rest) := span_numchars r in (c :: n, rest)
      else ([], s)
  | [] => ([], [])
  end.

(** A number: the longest run of units that occur in numbers, which has
    to be a number.  (No unit of that kind can follow a value.) *)
Definition parse_number (s : jsstring) : option (jsstring * jsstring) :=
  let '(n, rest) := span_numchars s in
  if valid_number n then Some (n, rest) else None.

(** The object that a sequence of members denotes: each is defined in
    turn, so a repeated key keeps its first place and its last value. *)
Definition build_object (members : list (jsstring * json)) : obj :=
  define_all [] members.

Fixpoint parse_value (fuel : nat) (s : jsstring) : option (json * jsstring) :=
  match fuel with
  | O => None
  | S f =>
      match skip_ws s with
      | [] => None
      | c :: r =>
          if c =? 123 then
            match expect 125 (skip_ws r) with
            | Some r' => Some (JObj [], r')
            | None =>
                match parse_members f r with
                | Some (ms, r') => Some (JObj (build_object ms), r')
                | None => None
                end
            end
          else if c =? 91 then
            match expect 93 (skip_ws r) with
            | Some r' => Some (JArr [], r')
            | None =>
                match parse_elements f r with
                | Some (vs, r') => Some (JArr vs, r')
                | None => None
                end
            end
          else if c =? 34 then
            match parse_string_body r with
            | Some (str, r') => Some (JStr str, r')
            | None => None
            end
          else if (c =? 45) || is_digit c then
            match parse_number (c :: r) with
            | Some (n, r') => Some (JNum n, r')
            | None => None
            end
          else if c =? 116 then
            match expect_all (lit "rue") r with
            | Some r' => Some (JBool true, r')
            | None => None
            end
          else if c =? 102 then
            match expect_all (lit "alse") r with
            | Some r' => Some (JBool false, r')
            | None => None
            end
          else if c =? 110 then
            match expect_all (lit "ull") r with
            | Some r' => Some (JNull, r')
            | None => None
            end
          else None
      end
  end

with parse_elements (fuel : nat) (s : jsstring)
  : option (list json * jsstring) :=
  match fuel with
  | O => None
  | S f =>
      match parse_value f s with
      | Some (v, r) =>
          match skip_ws r with
          | [] => None
          | c :: r' =>
              if c =? 44 then
                match parse_elements f r' with
                | Some (vs, r'') => Some (v :: vs, r'')
                | None => None
                end
              else if c =? 93 then Some ([v], r')
              else None
          end
      | None => None
      end
  end

with parse_members (fuel : nat) (s : jsstring)
  : option (list (jsstring * json) * jsstring) :=
  match fuel with
  | O => None
  | S f =>
      match expect 34 (skip_ws s) with
      | Some r =>
          match parse_string_body r with
          | Some (k, r1) =>
              match expect 58 (skip_ws r1) with
              | Some r2 =>
                  match parse_value f r2 with
                  | Some (v, r3) =>
                      match skip_ws r3 with
                      | [] => None
                      | c :: r4 =>
                          if c =? 44 then
                            match parse_members f r4 with
                            | Some (ms, r5) => Some ((k, v) :: ms, r5)
                            | None => None
                            end
                          else if c =? 125 then Some ([(k, v)], r4)
                          else None
                      end
                  | None => None
                  end
              | None => None
              end
          | None => None
          end
      | None => None
      end
  end.

(** [JSON.parse(s)] with no reviver: the value of the whole text, or a
    [SyntaxError]. *)
Definition parse (s : jsstring) : result json :=
  match parse_value (S (List.length s)) s with
  | Some (v, r) =>
      match skip_ws r with
      | [] => Ok v
      | _ :: _ => Throw SyntaxError
      end
  | None => Throw SyntaxError
  end.

End JSON.

(* ================================================================== *)
(** ** The JSON grammar, as a relation

    The grammar of ECMA-404, production by production, with the value that
    each text denotes.  It is stated on whole texts and owes nothing to
    the parser above; the two are proved to agree. *)

Module Grammar.
Import JSON.

(** ws *)
Definition blank (w : jsstring) : Prop := Forall (fun c => is_ws c = true) w.

(** characters: the text between the quotes, and the string it denotes. *)
Inductive Chars : jsstring -> jsstring -> Prop :=
| Chars_nil : Chars [] []
| Chars_raw (c : N) (t s : jsstring) :
    32 <= c -> c <> 34 -> c <> 92 ->
    Chars t s -> Chars (c :: t) (c :: s)
| Chars_escape (e c : N) (t s : jsstring) :
    simple_escape e = Some c ->
    Chars t s -> Chars (92 :: e :: t) (c :: s)
| Chars_unicode (h1 h2 h3 h4 c : N) (t s : jsstring) :
    hex4_value h1 h2 h3 h4 = Some c ->
    Chars t s -> Chars (92 :: 117 :: h1 :: h2 :: h3 :: h4 :: t) (c :: s).

Inductive Value : jsstring -> json -> Prop :=
| V_null : Value (lit "null") JNull
| V_true : Value (lit "true") (JBool true)
| V_false : Value (lit "false") (JBool false)
| V_number (n : jsstring) :
    valid_number n = true -> Value n (JNum n)
| V_string (t s : jsstring) :
    Chars t s -> Value (34 :: t ++ [34]) (JStr s)
| V_array_empty (w : jsstring) :
    blank w -> Value (91 :: w ++ [93]) (JArr [])
| V_array (es : jsstring) (vs : list json) :
    Elements es vs -> Value (91 :: es ++ [93]) (JArr vs)
| V_object_empty (w : jsstring) :
    blank w -> Value (123 :: w ++ [125]) (JObj [])
| V_object (ms : jsstring) (kvs : list (jsstring * json)) :
    Members ms kvs -> Value (123 :: ms ++ [125]) (JObj (build_object kvs))

(** element: ws value ws *)
with Element : jsstring -> json -> Prop :=
| Element_intro (w1 t w2 : jsstring) (v : json) :
    blank w1 -> Value t v -> blank w2 -> Element (w1 ++ t ++ w2) v

(** elements: element, or element [,] elements *)
with Elements : jsstring -> list json -> Prop :=
| Elements_one (e : jsstring) (v : json) :
    Element e v -> Elements e [v]
| Elements_more (e es : jsstring) (v : json) (vs : list json) :
    Element e v -> Elements es vs -> Elements (e ++ 44 :: es) (v :: vs)

(** member: ws string ws [:] element *)
with Member : jsstring -> jsstring * json -> Prop :=
| Member_intro (w1 t k w2 e : jsstring) (v : json) :
    blank w1 -> Chars t k -> blank w2 -> Element e v ->
    Member (w1 ++ 34 :: t ++ 34 :: w2 ++ 58 :: e) (k, v)

(** members: member, or member [,] members *)
with Members : jsstring -> list (jsstring * json) -> Prop :=
| Members_one (m : jsstring) (kv : jsstring * json) :
    Member m kv -> Members m [kv]
| Members_more (m ms : jsstring) (kv : jsstring * json)
    (kvs : list (jsstring * json)) :
    Member m kv -> Members ms kvs -> Members (m ++ 44 :: ms) (kv :: kvs).

Scheme Value_mind := Minimality for Value Sort Prop
  with Element_mind := Minimality for Element Sort Prop
  with Elements_mind := Minimality for Elements Sort Prop
  with Member_mind := Minimality for Member Sort Prop
  with Members_mind := Minimality for Members Sort Prop.

Combined Scheme grammar_mutind from
  Value_mind, Element_mind, Elements_mind, Member_mind, Members_mind.

(** json: element.  [s] is a JSON text that denotes [v]. *)
Definition Json (s : jsstring) (v : json) : Prop := Element s v.

(** [s] is syntactically valid JSON. *)
Definition valid (s : jsstring) : Prop := exists v, Json s v.

(** What may follow a value: nothing, or a unit that no number holds. *)
Definition follow (rest : jsstring) : Prop :=
  match rest with
  | [] => True
  | c :: _ => is_numchar c = false
  end.

(** What may follow an element: nothing, a comma or a closing bracket. *)
Definition stop (rest : jsstring) : Prop :=
  match rest with
  | [] => True
  | c :: _ => c = 44 \/ c = 93 \/ c = 125
  end.

(** The units that a value can start with. *)
Definition value_start (c : N) : bool :=
  (c =? 123) || (c =? 91) || (c =? 34) || ((c =? 45) || is_digit c)
  || (c =? 116) || (c =? 102) || (c =? 110).

End Grammar.

(* ================================================================== *)
(** ** Calls that reach the file system *)

Module FS.

(** Any JavaScript value that can reach [fs.realpathSync] here: a JSON
    value, or [undefined]. *)
Definition value := option JSON.json.

(** The arguments of the calls to [fs.realpathSync] so far, oldest first. *)
Definition log := list value.

(** A computation that may call [fs.realpathSync] and may throw. *)
Definition M (A : Type) : Type := log -> result A * log.

Definition ret {A} (a : A) : M A := fun l => (Ok a, l).

Definition throw {A} (e : error) : M A := fun l => (Throw e, l).

Definition lift {A} (r : result A) : M A := fun l => (r, l).

Definition bind {A B} (m : M A) (f : A -> M B) : M B :=
  fun l =>
    match m l with
    | (Ok a, l') => f a l'
    | (Throw e, l') => (Throw e, l')
    end.

(** [try { m } catch (e) { h e }] *)
Definition try_catch {A} (m : M A) (h : error -> M A) : M A :=
  fun l =>
    match m l with
    | (Ok a, l') => (Ok a, l')
    | (Throw e, l') => h e l'
    end.

Fixpoint for_each {A B} (f : A -> M B) (xs : list A) : M (list B) :=
  match xs with
  | [] => ret []
  | x :: r => bind (f x) (fun y => bind (for_each f r) (fun ys => ret (y :: ys)))
  end.

End FS.

Declare Scope fs_scope.
Delimit Scope fs_scope with fs.
Notation "x <- m ;; k" := (FS.bind m (fun x => k))
  (at level 61, m at next level, right associativity) : fs_scope.

(* ================================================================== *)
(** ** The descriptors of the editor API that the module copies *)

(** Modelled from the spec: a workspace-root descriptor of the editor API,
    a name and an index plus a resource identifier. *)
Record WorkspaceFolder : Type := mkWorkspaceFolder {
  wf_uri : Uri.t;
  wf_name : jsstring;
  wf_index : N
}.

(** Modelled from the spec: an open-document view of the editor API wraps
    a document descriptor, which wraps a resource identifier.  Whatever
    else the two objects hold is [D] and [E]. *)
Record TextDocument (D : Type) : Type := mkTextDocument {
  doc_uri : Uri.t;
  doc_rest : D
}.
Arguments mkTextDocument {D}.
Arguments doc_uri {D}.
Arguments doc_rest {D}.

Record TextEditor (D E : Type) : Type := mkTextEditor {
  document : TextDocument D;
  editor_rest : E
}.
Arguments mkTextEditor {D E}.
Arguments document {D E}.
Arguments editor_rest {D E}.

(* ================================================================== *)
(** ** The module [uri.ts] *)

Module GitUri.
Import JSON.
Local Open Scope fs_scope.

Definition k_path : jsstring := Eval cbv in lit "path".
Definition k_ref : jsstring := Eval cbv in lit "ref".
Definition k_submoduleOf : jsstring := Eval cbv in lit "submoduleOf".
Definition s_git : jsstring := Eval cbv in lit "git".
Definition s_dot_git : jsstring := Eval cbv in lit ".git".
Definition s_dot_diff : jsstring := Eval cbv in lit ".diff".

(** [/^git$/] *)
Definition re_git : RegExp.regex :=
  RegExp.mkRegex true [RegExp.Chr 103; RegExp.Chr 105; RegExp.Chr 116] true.

(** [/.git$/] *)
Definition re_any_git : RegExp.regex :=
  RegExp.mkRegex false
    [RegExp.Dot; RegExp.Chr 103; RegExp.Chr 105; RegExp.Chr 116] true.

Record GitUriOptions : Type := mkOptions {
  replaceFileExtension : option bool;
  submoduleOf : option jsstring
}.

(** [options = {}] *)
Definition default_options : GitUriOptions := mkOptions None None.

Record MergeUris : Type := mkMergeUris {
  base : Uri.t;
  ours : Uri.t;
  theirs : Uri.t
}.

(** [v.path]: reading a property of [null] throws; an object gives its
    own property; no other value (and no prototype) has a [path]. *)
Definition get_path (v : json) : result FS.value :=
  match v with
  | JNull => Throw TypeError
  | JObj o => Ok (obj_get k_path o)
  | _ => Ok None
  end.

Definition isGitUri (uri : Uri.t) : bool :=
  RegExp.test re_git (Uri.scheme uri).

Definition fromGitUri (uri : Uri.t) : result json :=
  JSON.parse (Uri.query uri).

Section Program.

(** [uri.fsPath]: the file-system path of an identifier, computed by the
    editor API. *)
Variable fsPath : Uri.t -> jsstring.

(** [fs.realpathSync]: what the file system answers for an argument. *)
Variable realpathSync : FS.value -> result jsstring.

(** [Number::toString], for [JSON.stringify]. *)
Variable NumberToString : jsstring -> jsstring.

Definition toGitUri (uri : Uri.t) (ref : jsstring) (options : GitUriOptions)
  : Uri.t :=
  let params : obj := [(k_path, JStr (fsPath uri)); (k_ref, JStr ref)] in
  let params :=
    match submoduleOf options with
    | Some sub => if truthy sub then obj_set k_submoduleOf (JStr sub) params
                  else params
    | None => params
    end in
  let path := Uri.path uri in
  let path :=
    if truthy_bool (replaceFileExtension options) then path ++ s_dot_git
    else if truthy_opt (submoduleOf options) then path ++ s_dot_diff
    else path in
  Uri.with_ uri
    (Uri.mkChange (Some s_git) None (Some path)
       (Some (stringify NumberToString (JObj params))) None).

Definition toMergeUris (uri : Uri.t) : MergeUris :=
  {| base := toGitUri uri (lit ":1") default_options;
     ours := toGitUri uri (lit ":2") default_options;
     theirs := toGitUri uri (lit ":3") default_options |}.

(** One call of [fs.realpathSync]. *)
Definition fs_realpathSync (arg : FS.value) : FS.M jsstring :=
  fun l => (realpathSync arg, l ++ [arg]).

Definition fromGitUriAndResolve (uri : Uri.t) : FS.M json :=
  parsedQuery <- FS.lift (JSON.parse (Uri.query uri)) ;;
  FS.try_catch
    (let copy := spread parsedQuery in
     p <- FS.lift (get_path parsedQuery) ;;
     real <- fs_realpathSync p ;;
     FS.ret (JObj (obj_set k_path (JStr real) copy)))
    (fun _ => FS.ret parsedQuery).

Definition resolvePath (path : jsstring) : FS.M jsstring :=
  FS.try_catch
    (fs_realpathSync (Some (JStr path)))
    (fun _ => FS.ret path).

Definition resolveUri (uri : Uri.t) : FS.M Uri.t :=
  p <- resolvePath (Uri.path uri) ;;
  FS.ret (Uri.with_ uri (Uri.set_path (Uri.spread uri) p)).

Definition resolveUriWithGitScheme (uri : Uri.t) : FS.M Uri.t :=
  FS.try_catch
    (let endsInGit := RegExp.test re_any_git (Uri.path uri) in
     oldPathResolved <-
       resolvePath (if endsInGit
                    then RegExp.replace re_any_git (Uri.path uri) []
                    else Uri.path uri) ;;
     let newUriObj :=
       Uri.set_path (Uri.spread uri)
         (if endsInGit then oldPathResolved ++ s_dot_git
          else oldPathResolved) in
     newUriObj <-
       (if truthy (Uri.query uri)
        then params <- fromGitUriAndResolve uri ;;
             FS.ret (Uri.set_query newUriObj
                       (stringify NumberToString params))
        else FS.ret newUriObj) ;;
     FS.ret (Uri.with_ uri newUriObj))
    (fun _ => FS.ret uri).

Definition resolveWorkspaceFolders (workspaceFolders : option (list WorkspaceFolder))
  : FS.M (list WorkspaceFolder) :=
  match workspaceFolders with
  | None => FS.ret []
  | Some folders =>
      FS.for_each
        (fun folder =>
           p <- resolvePath (Uri.path (wf_uri folder)) ;;
           FS.ret {| wf_uri := Uri.with_ (wf_uri folder)
                                 (Uri.set_path (Uri.spread (wf_uri folder)) p);
                     wf_name := wf_name folder;
                     wf_index := wf_index folder |})
        folders
  end.

Definition resolveWindowVisibleTextEditors {D E : Type}
  (editors : list (TextEditor D E)) : FS.M (list (TextEditor D E)) :=
  FS.for_each
    (fun editor =>
       u <- resolveUri (doc_uri (document editor)) ;;
       FS.ret {| document := {| doc_uri := u;
                                doc_rest := doc_rest (document editor) |};
                 editor_rest := editor_rest editor |})
    editors.

End Program.

End GitUri.

(* ================================================================== *)
(** ** A small world to run the module in *)

Module Demo.
Import JSON.

(** On a system without drive letters an identifier's file-system path is
    its path. *)
Definition fsPath (u : Uri.t) : jsstring := Uri.path u.

(** A file system with one symbolic link, [/l], to the directory [/t];
    nothing else exists. *)
Definition realpathSync (arg : FS.value) : result jsstring :=
  match arg with
  | Some (JStr p) =>
      if str_eqb p (lit "/l") then Ok (lit "/t")
      else if str_eqb p (lit "/t") then Ok (lit "/t")
      else Throw (SystemError (lit "ENOENT"))
  | _ => Throw (SystemError (lit "ENOENT"))
  end.

Definition NumberToString (n : jsstring) : jsstring := n.

(** A [file:] identifier with the path [p] and the query [q]. *)
Definition file (p q : string) : Uri.t :=
  Uri.mk (lit "file") [] (lit p) (lit q) [].

(** A [file:] identifier with the path [p] and no query. *)
Definition plain (p : string) : Uri.t :=
  Uri.mk (lit "file") [] (lit p) [] [].

End Demo.

(* ================================================================== *)
(** ** The file-system path of an identifier with a drive letter *)

Module DriveLetter.

Definition is_letter (c : N) : bool :=
  ((65 <=? c) && (c <=? 90)) || ((97 <=? c) && (c <=? 122)).

(** [toLowerCase] on one unit of a drive letter. *)
Definition to_lower (c : N) : N :=
  if (65 <=? c) && (c <=? 90) then c + 32 else c.

(** Modelled from the spec: the spec tells the real path of an identifier
    from its path component, and leaves its computation ([uri.fsPath]) to
    the editor API, which is outside this file.  This is the rule of that
    API where the separator is [/]: a [file] identifier with an authority
    and a path of more than one unit gives a UNC path; a path that starts
    with a slash, a letter and a colon loses the slash and gets the
    letter in lower case; any other path is returned as it is. *)
Definition fsPath (u : Uri.t) : jsstring :=
  if truthy (Uri.authority u)
     && (1 <? N.of_nat (List.length (Uri.path u)))
     && str_eqb (Uri.scheme u) (lit "file")
  then 47 :: 47 :: Uri.authority u ++ Uri.path u
  else
    match Uri.path u with
    | s :: d :: c :: rest =>
        if (s =? 47) && is_letter d && (c =? 58)
        then to_lower d :: c :: rest
        else Uri.path u
    | _ => Uri.path u
    end.

End DriveLetter.

(* ================================================================== *)
(** ** Expected results, in the words of the specification *)

Module Expected.
Import JSON GitUri.

(** The text of a member whose value is a string, before [rest]. *)
Definition member (k v : jsstring) (rest : jsstring) : jsstring :=
  34 :: quote_body k ++ 34 :: 58 :: 34 :: quote_body v ++ 34 :: rest.

(** The text of the object [{path, ref}] ... *)
Definition params_text (p r : jsstring) : jsstring :=
  123 :: member k_path p (44 :: member k_ref r [125]).

(** ... and of [{path, ref, submoduleOf}]. *)
Definition params_sub_text (p r sub : jsstring) : jsstring :=
  123 :: member k_path p
           (44 :: member k_ref r (44 :: member k_submoduleOf sub [125])).

(** The [submoduleOf] that the encoder takes into account: one that is
    given and is not the empty string. *)
Definition effective_submodule (o : GitUriOptions) : option jsstring :=
  match submoduleOf o with
  | Some s => if truthy s then Some s else None
  | None => None
  end.

(** The record [{path, ref}], with [submoduleOf] when there is one. *)
Definition params_obj (p r : jsstring) (sub : option jsstring) : obj :=
  match sub with
  | Some s => [(k_path, JStr p); (k_ref, JStr r); (k_submoduleOf, JStr s)]
  | None => [(k_path, JStr p); (k_ref, JStr r)]
  end.

(** The text of that record. *)
Definition params_obj_text (p r : jsstring) (sub : option jsstring)
  : jsstring :=
  match sub with
  | Some s => params_sub_text p r s
  | None => params_text p r
  end.

(** An object all of whose properties are strings, as the records of the
    encoder are. *)
Definition flat (o : obj) : Prop :=
  Forall (fun kv : jsstring * json => exists s, snd kv = JStr s) o.

Section Resolution.

Variable realpathSync : FS.value -> result jsstring.

(** The canonical form of a path when the file system gives one, the path
    itself when it does not. *)
Definition canonical_or_same (p : jsstring) : jsstring :=
  match realpathSync (Some (JStr p)) with
  | Ok q => q
  | Throw _ => p
  end.

(** An identifier with its path resolved and nothing else changed. *)
Definition resolved_uri (u : Uri.t) : Uri.t :=
  Uri.mk (Uri.scheme u) (Uri.authority u)
         (canonical_or_same (Uri.path u)) (Uri.query u) (Uri.fragment u).

(** Decoded parameters with [path] resolved when that succeeds, and as
    they are when it fails. *)
Definition resolved_params (v : json) : json :=
  match get_path v with
  | Ok p =>
      match realpathSync p with
      | Ok q => JObj (obj_set k_path (JStr q) (spread v))
      | Throw _ => v
      end
  | Throw _ => v
  end.

(** The calls that decoding with resolution makes. *)
Definition params_lookups (v : json) : FS.log :=
  match get_path v with
  | Ok p => [p]
  | Throw _ => []
  end.

End Resolution.

End Expected.

(* ================================================================== *)
(** * Properties *)

(** ** Strings and regular expressions *)

Module JSFacts.

Lemma str_eqb_refl (a : jsstring) : str_eqb a a = true.
Proof.
  induction a as [|x a IH]; cbn; [reflexivity|].
  now rewrite N.eqb_refl, IH.
Qed.

Lemma str_eqb_eq (a b : jsstring) : str_eqb a b = true <-> a = b.
Proof.
  split; [|intros ->; apply str_eqb_refl].
  revert b; induction a as [|x a IH]; intros [|y b]; cbn; try discriminate; auto.
  intros H; apply andb_true_iff in H as [H1 H2].
  apply N.eqb_eq in H1; apply IH in H2; congruence.
Qed.

Lemma str_eqb_neq (a b : jsstring) : str_eqb a b = false <-> a <> b.
Proof.
  split.
  - intros H E; subst; rewrite str_eqb_refl in H; discriminate.
  - intros H; destruct (str_eqb a b) eqn:E; [|reflexivity].
    apply str_eqb_eq in E; contradiction.
Qed.

Lemma truthy_true (s : jsstring) : truthy s = true <-> s <> [].
Proof. destruct s; cbn; split; congruence. Qed.

End JSFacts.

Module RegExpFacts.
Import RegExp GitUri.

(** [/^git$/] accepts the string [git] and no other. *)
Lemma test_re_git (s : jsstring) : test re_git s = true <-> s = s_git.
Proof.
  unfold test, exec, match_here, s_git; cbn.
  destruct s as [|a [|b [|c [|d s]]]]; cbn;
    repeat match goal with
           | |- context [N.eqb ?x ?y] => destruct (N.eqb_spec x y); cbn
           end;
    split; congruence.
Qed.

(** A match of [/.git$/] at the head of the input takes the whole input:
    four units. *)
Lemma match_here_any_git (s r : jsstring) :
  match_here re_any_git s = Some r ->
  r = [] /\ exists c, line_terminator c = false /\ s = c :: s_git.
Proof.
  unfold match_here; cbn.
  destruct s as [|a [|b [|c [|d [|e s]]]]]; cbn;
    repeat match goal with
           | |- context [if ?b then _ else _] => destruct b eqn:?; cbn
           end; try discriminate.
  intros [= <-]; split; [reflexivity|].
  exists a; split.
  - now apply negb_true_iff.
  - unfold s_git. repeat match goal with
    | H : N.eqb _ _ = true |- _ => apply N.eqb_eq in H
    end. congruence.
Qed.

Lemma match_here_any_git_hit (c : N) :
  line_terminator c = false -> match_here re_any_git (c :: s_git) = Some [].
Proof. intros H; unfold match_here; cbn; now rewrite H. Qed.

(** The only match of [/.git$/] is the last four units of the input. *)
Lemma exec_any_git_hit (pre : jsstring) (c : N) :
  line_terminator c = false ->
  exec re_any_git (pre ++ c :: s_git) = Some (pre, []).
Proof.
  intros Hc; unfold exec; cbn [at_start re_any_git].
  induction pre as [|a pre IH].
  - cbn [app search]. now rewrite match_here_any_git_hit.
  - cbn [app search].
    destruct (match_here re_any_git (a :: pre ++ c :: s_git)) as [r|] eqn:E.
    + apply match_here_any_git in E as [_ [c' [_ E]]].
      apply (f_equal (@List.length N)) in E.
      rewrite !length_cons, length_app in E; cbn in E; lia.
    + now rewrite IH.
Qed.

Lemma exec_any_git_inv (s pre rest : jsstring) :
  exec re_any_git s = Some (pre, rest) ->
  rest = [] /\ exists c, line_terminator c = false /\ s = pre ++ c :: s_git.
Proof.
  unfold exec; cbn [at_start re_any_git].
  revert pre; induction s as [|a s IH]; intros pre; cbn [search].
  - destruct (match_here re_any_git []) eqn:E; [|discriminate].
    apply match_here_any_git in E as [_ [c [_ E]]]; discriminate.
  - destruct (match_here re_any_git (a :: s)) as [r|] eqn:E.
    + intros [= <- <-]. apply match_here_any_git in E as [-> [c [Hc E]]].
      split; [reflexivity|]. exists c; split; [assumption|]. exact E.
    + destruct (search re_any_git s) as [[pre' rest']|] eqn:Es; [|discriminate].
      intros [= <- <-].
      destruct (IH pre' eq_refl) as [-> [c [Hc ->]]].
      split; [reflexivity|]. exists c; split; [assumption|reflexivity].
Qed.

(** When the pattern hits, [replace] with the empty string drops the last
    four units; when it misses, the string is returned as it is. *)
Lemma replace_any_git_hit (pre : jsstring) (c : N) :
  line_terminator c = false ->
  replace re_any_git (pre ++ c :: s_git) [] = pre.
Proof.
  intros Hc; unfold replace; rewrite exec_any_git_hit by assumption.
  cbn; now rewrite app_nil_r.
Qed.

Lemma test_any_git_hit (pre : jsstring) (c : N) :
  line_terminator c = false -> test re_any_git (pre ++ c :: s_git) = true.
Proof. intros Hc; unfold test; now rewrite exec_any_git_hit. Qed.

Lemma test_any_git_miss (s : jsstring) :
  (forall pre c, s = pre ++ c :: s_git -> line_terminator c = true) ->
  test re_any_git s = false.
Proof.
  intros H; unfold test.
  destruct (exec re_any_git s) as [[pre rest]|] eqn:E; [|reflexivity].
  apply exec_any_git_inv in E as [_ [c [Hc E]]].
  rewrite (H _ _ E) in Hc; discriminate.
Qed.

End RegExpFacts.

(** ** JSON: what is printed is read back *)

Module JSONFacts.
Import JSON.

Lemma hex_value_digit (d : N) : d < 16 -> hex_value (hex_digit d) = Some d.
Proof.
  intros H; unfold hex_digit, hex_value, is_digit.
  destruct (N.ltb_spec d 10).
  - replace ((48 <=? 48 + d) && (48 + d <=? 57)) with true.
    + f_equal; lia.
    + symmetry; apply andb_true_iff; split; apply N.leb_le; lia.
  - replace ((48 <=? 87 + d) && (87 + d <=? 57)) with false.
    + replace ((97 <=? 87 + d) && (87 + d <=? 102)) with true.
      * f_equal; lia.
      * symmetry; apply andb_true_iff; split; apply N.leb_le; lia.
    + symmetry; apply andb_false_iff; right; apply N.leb_gt; lia.
Qed.

Lemma hex4_digits (c : N) :
  c < 65536 ->
  4096 * (c / 4096 mod 16) + 256 * (c / 256 mod 16)
  + 16 * (c / 16 mod 16) + c mod 16 = c.
Proof.
  intros H.
  pose proof (N.div_mod c 16 ltac:(lia)) as E1.
  pose proof (N.div_mod (c / 16) 16 ltac:(lia)) as E2.
  pose proof (N.div_mod (c / 256) 16 ltac:(lia)) as E3.
  replace (c / 16 / 16) with (c / 256) in E2
    by (rewrite N.Div0.div_div; reflexivity).
  replace (c / 256 / 16) with (c / 4096) in E3
    by (rewrite N.Div0.div_div; reflexivity).
  assert (c / 4096 < 16) by (apply N.Div0.div_lt_upper_bound; lia).
  rewrite (N.mod_small (c / 4096) 16) by assumption.
  lia.
Qed.

(** An escape [\uXXXX] written by [JSON.stringify] is read back as the
    unit it stands for. *)
Lemma parse_unicode_escape (c : N) (rest : jsstring) :
  c < 65536 ->
  parse_string_body (unicode_escape c ++ rest)
  = cons_unit c (parse_string_body rest).
Proof.
  intros H; unfold unicode_escape.
  cbn [app parse_string_body].
  change (92 =? 34) with false; change (92 =? 92) with true.
  change (117 =? 117) with true; cbn match.
  unfold hex4_value.
  rewrite !hex_value_digit by (apply N.mod_lt; lia).
  now rewrite hex4_digits.
Qed.

Lemma parse_raw_unit (c : N) (rest : jsstring) :
  c <> 34 -> c <> 92 -> 32 <= c ->
  parse_string_body (c :: rest) = cons_unit c (parse_string_body rest).
Proof.
  intros H1 H2 H3; cbn [parse_string_body].
  apply N.eqb_neq in H1, H2; rewrite H1, H2.
  apply N.ltb_ge in H3; now rewrite H3.
Qed.

Lemma parse_quote_unit (c : N) (rest : jsstring) :
  parse_string_body (quote_unit c ++ rest)
  = cons_unit c (parse_string_body rest).
Proof.
  unfold quote_unit.
  repeat match goal with
         | |- context [if N.eqb c ?k then _ else _] =>
             destruct (N.eqb_spec c k); [subst; reflexivity|]
         end.
  destruct ((c <? 32) || is_surrogate c) eqn:E.
  - apply parse_unicode_escape.
    apply orb_true_iff in E as [E|E].
    + apply N.ltb_lt in E; lia.
    + unfold is_surrogate in E; apply andb_true_iff in E as [_ E].
      apply N.leb_le in E; lia.
  - apply orb_false_iff in E as [E _]; apply N.ltb_ge in E.
    now apply parse_raw_unit.
Qed.

Lemma high_surrogate_bounds (c : N) :
  is_high_surrogate c = true -> 55296 <= c <= 56319.
Proof.
  unfold is_high_surrogate; intros H; apply andb_true_iff in H as [H1 H2].
  apply N.leb_le in H1, H2; lia.
Qed.

Lemma low_surrogate_bounds (c : N) :
  is_low_surrogate c = true -> 56320 <= c <= 57343.
Proof.
  unfold is_low_surrogate; intros H; apply andb_true_iff in H as [H1 H2].
  apply N.leb_le in H1, H2; lia.
Qed.

Lemma parse_quote_body_len (n : nat) :
  forall s rest, (List.length s <= n)%nat ->
    parse_string_body (quote_body s ++ 34 :: rest) = Some (s, rest).
Proof.
  induction n as [|n IH]; intros s rest Hn.
  - destruct s; [reflexivity | cbn in Hn; lia].
  - destruct s as [|c r]; [reflexivity|].
    cbn [quote_body].
    destruct (is_high_surrogate c) eqn:Hc.
    + apply high_surrogate_bounds in Hc.
      destruct r as [|d r'].
      * rewrite parse_unicode_escape by lia. reflexivity.
      * destruct (is_low_surrogate d) eqn:Hd.
        -- apply low_surrogate_bounds in Hd.
           cbn [app].
           rewrite parse_raw_unit by lia.
           rewrite parse_raw_unit by lia.
           rewrite IH by (cbn in Hn; lia). reflexivity.
        -- rewrite <- app_assoc, parse_unicode_escape by lia.
           rewrite IH by (cbn in Hn |- *; lia). reflexivity.
    + rewrite <- app_assoc, parse_quote_unit.
      rewrite IH by (cbn in Hn; lia). reflexivity.
Qed.

(** Reading a string that [JSON.stringify] wrote gives the string back,
    whatever its units. *)
Lemma parse_quote_body (s rest : jsstring) :
  parse_string_body (quote_body s ++ 34 :: rest) = Some (s, rest).
Proof. apply (parse_quote_body_len (List.length s)); lia. Qed.

End JSONFacts.

(** ** The parser and the grammar agree *)

Module GrammarFacts.
Import JSON Grammar JSONFacts.

(** *** White space *)

Lemma skip_ws_blank (w s : jsstring) : blank w -> skip_ws (w ++ s) = skip_ws s.
Proof.
  induction 1 as [|c w Hc _ IH]; cbn; [reflexivity|]. now rewrite Hc.
Qed.

Lemma skip_ws_start (c : N) (s : jsstring) :
  is_ws c = false -> skip_ws (c :: s) = c :: s.
Proof. intros H; cbn; now rewrite H. Qed.

Lemma skip_ws_split (s : jsstring) :
  exists w, blank w /\ s = w ++ skip_ws s.
Proof.
  induction s as [|c s [w [Hw E]]]; cbn.
  - exists []; split; [constructor | reflexivity].
  - destruct (is_ws c) eqn:Hc.
    + exists (c :: w); split; [now constructor | cbn; congruence].
    + exists []; split; [constructor | reflexivity].
Qed.

Lemma skip_ws_head (s r : jsstring) (c : N) :
  skip_ws s = c :: r -> is_ws c = false.
Proof.
  induction s as [|d s IH]; cbn; [discriminate|].
  destruct (is_ws d) eqn:Hd; [assumption|]. now intros [= <- <-].
Qed.

Lemma skip_ws_nil_blank (s : jsstring) : skip_ws s = [] -> blank s.
Proof.
  intros H. destruct (skip_ws_split s) as [w [Hw E]].
  rewrite H, app_nil_r in E. now subst.
Qed.

(** *** Strings *)

Lemma simple_escape_not_u (e c : N) : simple_escape e = Some c -> (e =? 117) = false.
Proof.
  intros H. destruct (N.eqb_spec e 117) as [->|]; [discriminate|reflexivity].
Qed.

Lemma Chars_complete (t s : jsstring) :
  Chars t s ->
  forall rest, parse_string_body (t ++ 34 :: rest) = Some (s, rest).
Proof.
  induction 1 as [|c t s H1 H2 H3 _ IH|e c t s He _ IH
                  |h1 h2 h3 h4 c t s Hh _ IH]; intros rest.
  - reflexivity.
  - cbn [app]. rewrite parse_raw_unit by assumption. now rewrite IH.
  - cbn [app parse_string_body]. change (92 =? 34) with false.
    change (92 =? 92) with true. cbn match.
    rewrite (simple_escape_not_u e c He), He. now rewrite IH.
  - cbn [app parse_string_body]. change (92 =? 34) with false.
    change (92 =? 92) with true. change (117 =? 117) with true. cbn match.
    rewrite Hh. now rewrite IH.
Qed.

Lemma cons_unit_some (c : N) (x : option (jsstring * jsstring))
  (s r : jsstring) :
  cons_unit c x = Some (s, r) ->
  exists s', s = c :: s' /\ x = Some (s', r).
Proof.
  destruct x as [[s' r']|]; cbn; [|discriminate].
  intros [= <- <-]. now exists s'.
Qed.

Lemma Chars_sound_len (n : nat) :
  forall s str r, (List.length s <= n)%nat ->
    parse_string_body s = Some (str, r) ->
    exists t, Chars t str /\ s = t ++ 34 :: r.
Proof.
  induction n as [|n IH]; intros s str r Hn.
  - destruct s; [discriminate | cbn in Hn; lia].
  - destruct s as [|c s1]; [discriminate|]. cbn [parse_string_body].
    destruct (N.eqb_spec c 34) as [->|N34].
    { intros [= <- <-]. exists []. split; [constructor | reflexivity]. }
    destruct (N.eqb_spec c 92) as [->|N92].
    + destruct s1 as [|e s2]; [discriminate|].
      destruct (N.eqb_spec e 117) as [->|N117].
      * destruct s2 as [|h1 [|h2 [|h3 [|h4 s3]]]]; try discriminate.
        destruct (hex4_value h1 h2 h3 h4) as [u|] eqn:Hh; [|discriminate].
        intros H. apply cons_unit_some in H as [s' [-> H]].
        apply IH in H as [t [Ht ->]]; [|cbn in Hn; lia].
        exists (92 :: 117 :: h1 :: h2 :: h3 :: h4 :: t).
        split; [now constructor | reflexivity].
      * destruct (simple_escape e) as [u|] eqn:He; [|discriminate].
        intros H. apply cons_unit_some in H as [s' [-> H]].
        apply IH in H as [t [Ht ->]]; [|cbn in Hn; lia].
        exists (92 :: e :: t). split; [now constructor | reflexivity].
    + destruct (N.ltb_spec c 32) as [|G32]; [discriminate|].
      intros H. apply cons_unit_some in H as [s' [-> H]].
      apply IH in H as [t [Ht ->]]; [|cbn in Hn; lia].
      exists (c :: t). split; [now constructor | reflexivity].
Qed.

Lemma Chars_sound (s str r : jsstring) :
  parse_string_body s = Some (str, r) ->
  exists t, Chars t str /\ s = t ++ 34 :: r.
Proof. apply (Chars_sound_len (List.length s)); lia. Qed.

(** *** Numbers *)

Lemma forallb_drop_digits (s : jsstring) :
  forallb is_numchar (drop_digits s) = true -> forallb is_numchar s = true.
Proof.
  induction s as [|c s IH]; cbn; [reflexivity|].
  destruct (is_digit c) eqn:Hc.
  - intros H. unfold is_numchar. rewrite Hc. cbn. now apply IH.
  - intros H. exact H.
Qed.

Lemma all_digits1_numchars (s : jsstring) :
  all_digits1 s = true -> forallb is_numchar s = true.
Proof.
  destruct s as [|c r]; cbn; [discriminate|].
  intros H. apply andb_true_iff in H as [Hc Hr].
  unfold is_numchar at 1. rewrite Hc. cbn.
  apply forallb_drop_digits. destruct (drop_digits r); [reflexivity|discriminate].
Qed.

Lemma valid_exp_numchars (s : jsstring) :
  valid_exp s = true -> forallb is_numchar s = true.
Proof.
  destruct s as [|e r]; cbn; [reflexivity|].
  destruct ((e =? 101) || (e =? 69)) eqn:He; [|discriminate].
  assert (Hn : is_numchar e = true).
  { unfold is_numchar. apply orb_true_iff in He as [->| ->];
      rewrite ?orb_true_r; reflexivity. }
  rewrite Hn. cbn.
  destruct r as [|g r']; [discriminate|].
  destruct ((g =? 43) || (g =? 45)) eqn:Hg.
  - intros H. cbn. apply all_digits1_numchars in H. rewrite H.
    unfold is_numchar. apply orb_true_iff in Hg as [->| ->];
      rewrite ?orb_true_r; reflexivity.
  - apply all_digits1_numchars.
Qed.

Lemma valid_frac_numchars (s : jsstring) :
  valid_frac s = true -> forallb is_numchar s = true.
Proof.
  destruct s as [|c r]; [reflexivity|]. cbn [valid_frac].
  destruct (N.eqb_spec c 46) as [->|].
  - destruct r as [|d r']; [discriminate|].
    intros H. apply andb_true_iff in H as [Hd Hr].
    cbn. unfold is_numchar at 1. rewrite Hd. cbn.
    apply forallb_drop_digits. now apply valid_exp_numchars.
  - apply valid_exp_numchars.
Qed.

Lemma valid_int_numchars (s : jsstring) :
  valid_int s = true -> forallb is_numchar s = true.
Proof.
  destruct s as [|c r]; [discriminate|]. cbn [valid_int].
  destruct (N.eqb_spec c 48) as [->|].
  - intros H. cbn. now apply valid_frac_numchars.
  - destruct (is_digit c) eqn:Hc; [|discriminate].
    intros H. cbn. unfold is_numchar at 1. rewrite Hc. cbn.
    apply forallb_drop_digits. now apply valid_frac_numchars.
Qed.

Lemma valid_number_numchars (s : jsstring) :
  valid_number s = true -> forallb is_numchar s = true.
Proof.
  destruct s as [|c r]; [discriminate|]. cbn [valid_number].
  destruct (N.eqb_spec c 45) as [->|].
  - intros H. cbn. now apply valid_int_numchars.
  - apply valid_int_numchars.
Qed.

(** A number starts with a minus sign or a digit. *)
Lemma valid_number_head (n : jsstring) :
  valid_number n = true ->
  exists c r, n = c :: r /\ ((c =? 45) || is_digit c) = true.
Proof.
  destruct n as [|c r]; [discriminate|]. cbn [valid_number].
  intros H. exists c, r. split; [reflexivity|].
  destruct (N.eqb_spec c 45); [reflexivity|]. cbn.
  cbn [valid_int] in H. destruct (N.eqb_spec c 48) as [->|]; [reflexivity|].
  now destruct (is_digit c).
Qed.

Lemma span_numchars_app (n rest : jsstring) :
  forallb is_numchar n = true -> follow rest ->
  span_numchars (n ++ rest) = (n, rest).
Proof.
  intros Hn Hr. induction n as [|c n IH]; cbn [app span_numchars].
  - destruct rest as [|d rest]; [reflexivity|].
    cbn [span_numchars]. unfold follow in Hr. now rewrite Hr.
  - cbn [forallb] in Hn. apply andb_true_iff in Hn as [Hc Hn].
    rewrite Hc, IH by assumption. reflexivity.
Qed.

Lemma span_numchars_split (s n rest : jsstring) :
  span_numchars s = (n, rest) -> s = n ++ rest.
Proof.
  revert n rest; induction s as [|c s IH]; intros n rest; cbn.
  - now intros [= <- <-].
  - destruct (is_numchar c).
    + destruct (span_numchars s) as [n' rest'].
      intros [= <- <-]. cbn. f_equal. now apply IH.
    + now intros [= <- <-].
Qed.

Lemma parse_number_complete (n rest : jsstring) :
  valid_number n = true -> follow rest ->
  parse_number (n ++ rest) = Some (n, rest).
Proof.
  intros Hv Hr. unfold parse_number.
  rewrite span_numchars_app by (auto using valid_number_numchars).
  now rewrite Hv.
Qed.

Lemma parse_number_sound (s n rest : jsstring) :
  parse_number s = Some (n, rest) -> valid_number n = true /\ s = n ++ rest.
Proof.
  unfold parse_number. destruct (span_numchars s) as [n' rest'] eqn:E.
  destruct (valid_number n') eqn:Hv; [|discriminate].
  intros [= <- <-]. split; [assumption|]. now apply span_numchars_split.
Qed.


Lemma is_digit_bounds (c : N) : is_digit c = true <-> 48 <= c <= 57.
Proof.
  unfold is_digit. rewrite andb_true_iff, !N.leb_le. tauto.
Qed.

Lemma number_start (c : N) :
  ((c =? 45) || is_digit c) = true ->
  is_ws c = false /\ (c =? 123) = false /\ (c =? 91) = false
  /\ (c =? 34) = false /\ (c =? 93) = false /\ (c =? 125) = false.
Proof.
  intros H. apply orb_true_iff in H as [H|H].
  - apply N.eqb_eq in H; subst. repeat split.
  - apply is_digit_bounds in H. unfold is_ws.
    repeat split; rewrite ?orb_false_iff; repeat split;
      apply N.eqb_neq; lia.
Qed.

Lemma value_start_not (c : N) :
  value_start c = true ->
  is_ws c = false /\ (c =? 93) = false /\ (c =? 125) = false.
Proof.
  unfold value_start. intros H.
  repeat (apply orb_true_iff in H as [H|H]);
    try (apply N.eqb_eq in H; subst; repeat split; fail).
  destruct (number_start c) as (? & _ & _ & _ & ? & ?);
    [now rewrite H, orb_true_r|].
  now repeat split.
Qed.

Lemma stop_follow (rest : jsstring) : stop rest -> follow rest.
Proof.
  destruct rest as [|c r]; cbn; [trivial|].
  now intros [->|[->| ->]].
Qed.

Lemma stop_skip_ws (rest : jsstring) : stop rest -> skip_ws rest = rest.
Proof.
  destruct rest as [|c r]; cbn; [trivial|].
  now intros [->|[->| ->]].
Qed.

Lemma blank_follow (w rest : jsstring) :
  blank w -> stop rest -> follow (w ++ rest).
Proof.
  intros Hw Hr. destruct Hw as [|c w Hc _]; cbn.
  - now apply stop_follow.
  - unfold is_ws in Hc.
    repeat (apply orb_true_iff in Hc as [Hc|Hc]);
      apply N.eqb_eq in Hc; now subst.
Qed.

Lemma Value_head (t : jsstring) (v : json) :
  Value t v -> exists c x, t = c :: x /\ value_start c = true.
Proof.
  destruct 1; try (eexists _, _; split; reflexivity).
  destruct (valid_number_head n H) as [c [r [-> Hc]]].
  exists c, r. split; [reflexivity|].
  unfold value_start. rewrite Hc. now rewrite ?orb_true_r.
Qed.

Lemma Element_head (e : jsstring) (v : json) :
  Element e v ->
  exists w c x, blank w /\ e = w ++ c :: x /\ value_start c = true.
Proof.
  destruct 1 as [w1 t w2 v Hw1 Hv Hw2].
  destruct (Value_head t v Hv) as [c [x [-> Hc]]].
  exists w1, c, (x ++ w2). repeat split; assumption.
Qed.

Lemma Elements_head (es : jsstring) (vs : list json) :
  Elements es vs ->
  exists w c x, blank w /\ es = w ++ c :: x /\ value_start c = true.
Proof.
  destruct 1 as [e v He|e es v vs He _].
  - now apply Element_head in He.
  - apply Element_head in He as [w [c [x [Hw [-> Hc]]]]].
    exists w, c, (x ++ 44 :: es). repeat split; try assumption.
    now rewrite <- app_assoc.
Qed.

Lemma Member_head (m : jsstring) (kv : jsstring * json) :
  Member m kv -> exists w x, blank w /\ m = w ++ 34 :: x.
Proof.
  destruct 1 as [w1 t k w2 e v Hw1 _ _ _].
  exists w1, (t ++ 34 :: w2 ++ 58 :: e). now split.
Qed.

Lemma Members_head (ms : jsstring) (kvs : list (jsstring * json)) :
  Members ms kvs -> exists w x, blank w /\ ms = w ++ 34 :: x.
Proof.
  destruct 1 as [m kv Hm|m ms kv kvs Hm _].
  - now apply Member_head in Hm.
  - apply Member_head in Hm as [w [x [Hw ->]]].
    exists w, (x ++ 44 :: ms). split; [assumption|].
    now rewrite <- app_assoc.
Qed.

(** *** One step of the parser *)

Lemma parse_value_blank (f : nat) (w s : jsstring) :
  blank w -> parse_value f (w ++ s) = parse_value f s.
Proof.
  intros H. destruct f; [reflexivity|]. cbn [parse_value].
  now rewrite skip_ws_blank.
Qed.

Lemma parse_members_blank (f : nat) (w s : jsstring) :
  blank w -> parse_members f (w ++ s) = parse_members f s.
Proof.
  intros H. destruct f; [reflexivity|]. cbn [parse_members].
  now rewrite skip_ws_blank.
Qed.

Lemma parse_value_number (f : nat) (c : N) (r : jsstring) :
  ((c =? 45) || is_digit c) = true ->
  parse_value (S f) (c :: r)
  = match parse_number (c :: r) with
    | Some (n, r') => Some (JNum n, r')
    | None => None
    end.
Proof.
  intros H. destruct (number_start c H) as (Hw & H1 & H2 & H3 & _).
  cbn [parse_value]. rewrite skip_ws_start by assumption.
  now rewrite H1, H2, H3, H.
Qed.

Lemma parse_value_array (f : nat) (r : jsstring) :
  parse_value (S f) (91 :: r)
  = match expect 93 (skip_ws r) with
    | Some r' => Some (JArr [], r')
    | None =>
        match parse_elements f r with
        | Some (vs, r') => Some (JArr vs, r')
        | None => None
        end
    end.
Proof. reflexivity. Qed.

Lemma parse_value_brace (f : nat) (r : jsstring) :
  parse_value (S f) (123 :: r)
  = match expect 125 (skip_ws r) with
    | Some r' => Some (JObj [], r')
    | None =>
        match parse_members f r with
        | Some (ms, r') => Some (JObj (build_object ms), r')
        | None => None
        end
    end.
Proof. reflexivity. Qed.

Lemma expect_start (k c : N) (w x : jsstring) :
  blank w -> is_ws c = false -> (c =? k) = false ->
  expect k (skip_ws (w ++ c :: x)) = None.
Proof.
  intros Hw Hc Hk. rewrite skip_ws_blank, skip_ws_start by assumption.
  cbn. now rewrite Hk.
Qed.

Lemma expect_blank (k : N) (w x : jsstring) :
  blank w -> is_ws k = false -> expect k (skip_ws (w ++ k :: x)) = Some x.
Proof.
  intros Hw Hk. rewrite skip_ws_blank, skip_ws_start by assumption.
  cbn. now rewrite N.eqb_refl.
Qed.


Lemma parse_value_quote (f : nat) (r : jsstring) :
  parse_value (S f) (34 :: r)
  = match parse_string_body r with
    | Some (str, r') => Some (JStr str, r')
    | None => None
    end.
Proof. reflexivity. Qed.

Lemma parse_members_quote (f : nat) (r : jsstring) :
  parse_members (S f) (34 :: r)
  = match parse_string_body r with
    | Some (k, r1) =>
        match expect 58 (skip_ws r1) with
        | Some r2 =>
            match parse_value f r2 with
            | Some (v, r3) =>
                match skip_ws r3 with
                | [] => None
                | c :: r4 =>
                    if c =? 44 then
                      match parse_members f r4 with
                      | Some (ms, r5) => Some ((k, v) :: ms, r5)
                      | None => None
                      end
                    else if c =? 125 then Some ([(k, v)], r4)
                    else None
                end
            | None => None
            end
        | None => None
        end
    | None => None
    end.
Proof. reflexivity. Qed.

(** *** Every text of the grammar is parsed, to the value it denotes *)

Lemma complete_mutual :
  (forall t v, Value t v ->
     forall rest f, follow rest -> (List.length t < f)%nat ->
       parse_value f (t ++ rest) = Some (v, rest))
  /\ (forall e v, Element e v ->
        forall rest f, stop rest -> (List.length e < f)%nat ->
          exists r', parse_value f (e ++ rest) = Some (v, r')
                     /\ skip_ws r' = rest)
  /\ (forall es vs, Elements es vs ->
        forall rest f, (S (List.length es) < f)%nat ->
          parse_elements f (es ++ 93 :: rest) = Some (vs, rest))
  /\ (forall m kv, Member m kv ->
        forall rest f, (List.length m < f)%nat ->
          parse_members (S f) (m ++ 44 :: rest)
          = match parse_members f rest with
            | Some (ms, r) => Some (kv :: ms, r)
            | None => None
            end
          /\ parse_members (S f) (m ++ 125 :: rest) = Some ([kv], rest))
  /\ (forall ms kvs, Members ms kvs ->
        forall rest f, (S (List.length ms) < f)%nat ->
          parse_members f (ms ++ 125 :: rest) = Some (kvs, rest)).
Proof.
  apply grammar_mutind.
  - intros rest [|f] _ Hf; [cbn in Hf; lia | reflexivity].
  - intros rest [|f] _ Hf; [cbn in Hf; lia | reflexivity].
  - intros rest [|f] _ Hf; [cbn in Hf; lia | reflexivity].
  - intros n Hv rest [|f] Hr Hf; [lia|].
    destruct (valid_number_head n Hv) as [c [r [-> Hc]]].
    cbn [app]. rewrite parse_value_number by assumption.
    change (c :: r ++ rest) with ((c :: r) ++ rest).
    now rewrite parse_number_complete.
  - intros t s Hc rest [|f] _ Hf; [lia|].
    cbn [app]. rewrite <- app_assoc. cbn [app].
    now rewrite parse_value_quote, (Chars_complete t s Hc).
  - intros w Hw rest [|f] _ Hf; [lia|].
    cbn [app]. rewrite parse_value_array, <- app_assoc. cbn [app].
    now rewrite expect_blank.
  - intros es vs He IH rest [|f] _ Hf; [lia|].
    cbn [app]. rewrite parse_value_array, <- app_assoc. cbn [app].
    assert (X : expect 93 (skip_ws (es ++ 93 :: rest)) = None).
    { destruct (Elements_head es vs He) as [w [c [x [Hw [-> Hc]]]]].
      rewrite <- app_assoc. cbn [app].
      destruct (value_start_not c Hc) as (? & ? & ?). now apply expect_start. }
    rewrite X, IH; [reflexivity|].
    cbn [List.length] in Hf. rewrite length_app in Hf. cbn in Hf. lia.
  - intros w Hw rest [|f] _ Hf; [lia|].
    cbn [app]. rewrite parse_value_brace, <- app_assoc. cbn [app].
    now rewrite expect_blank.
  - intros ms kvs Hm IH rest [|f] _ Hf; [lia|].
    cbn [app]. rewrite parse_value_brace, <- app_assoc. cbn [app].
    assert (X : expect 125 (skip_ws (ms ++ 125 :: rest)) = None).
    { destruct (Members_head ms kvs Hm) as [w [x [Hw ->]]].
      rewrite <- app_assoc. cbn [app]. now apply expect_start. }
    rewrite X, IH; [reflexivity|].
    cbn [List.length] in Hf. rewrite length_app in Hf. cbn in Hf. lia.
  - intros w1 t w2 v Hw1 Hv IH Hw2 rest f Hs Hf.
    exists (w2 ++ rest). rewrite <- !app_assoc.
    rewrite parse_value_blank by assumption.
    rewrite IH.
    + split; [reflexivity|].
      rewrite skip_ws_blank by assumption. now apply stop_skip_ws.
    + now apply blank_follow.
    + rewrite !length_app in Hf. lia.
  - intros e v He IH rest [|f] Hf; [lia|].
    cbn [parse_elements].
    destruct (IH (93 :: rest) f) as [r' [E1 E2]]; [cbn; auto | lia |].
    now rewrite E1, E2.
  - intros e es v vs He IHe Hes IHes rest [|f] Hf; [lia|].
    rewrite length_app in Hf. cbn [List.length] in Hf.
    cbn [parse_elements]. rewrite <- app_assoc. cbn [app].
    destruct (IHe (44 :: es ++ 93 :: rest) f) as [r' [E1 E2]];
      [cbn; auto | lia |].
    rewrite E1, E2. change (44 =? 44) with true. cbn match.
    rewrite IHes by lia. reflexivity.
  - intros w1 t k w2 e v Hw1 Hc Hw2 He IH rest f Hf.
    assert (Hl : (List.length e < f)%nat).
    { rewrite !length_app in Hf. cbn [List.length] in Hf.
      rewrite !length_app in Hf. cbn [List.length] in Hf.
      rewrite !length_app in Hf. cbn [List.length] in Hf. lia. }
    split.
    + repeat (rewrite <- app_assoc; cbn [app]).
      rewrite parse_members_blank by assumption.
      rewrite parse_members_quote, (Chars_complete t k Hc).
      rewrite expect_blank by (assumption || reflexivity).
      destruct (IH (44 :: rest) f) as [r' [E1 E2]]; [cbn; auto | lia |].
      rewrite E1, E2. reflexivity.
    + repeat (rewrite <- app_assoc; cbn [app]).
      rewrite parse_members_blank by assumption.
      rewrite parse_members_quote, (Chars_complete t k Hc).
      rewrite expect_blank by (assumption || reflexivity).
      destruct (IH (125 :: rest) f) as [r' [E1 E2]]; [cbn; auto | lia |].
      rewrite E1, E2. reflexivity.
  - intros m kv Hm IH rest [|f] Hf; [lia|].
    destruct (IH rest f) as [_ B]; [lia|]. exact B.
  - intros m ms kv kvs Hm IHm Hms IHms rest [|f] Hf; [lia|].
    rewrite length_app in Hf. cbn [List.length] in Hf.
    rewrite <- app_assoc. cbn [app].
    destruct (IHm (ms ++ 125 :: rest) f) as [A _]; [lia|].
    rewrite A, IHms by lia. reflexivity.
Qed.


(** *** Whatever is parsed is a text of the grammar, with that value *)

Lemma skip_ws_eq (s x : jsstring) :
  skip_ws s = x -> exists w, blank w /\ s = w ++ x.
Proof. intros <-. apply skip_ws_split. Qed.

Lemma expect_sound (k : N) (s r : jsstring) :
  expect k s = Some r -> s = k :: r.
Proof.
  destruct s as [|c s]; cbn; [discriminate|].
  destruct (N.eqb_spec c k); [|discriminate]. intros [= ->]. congruence.
Qed.

Lemma expect_all_sound (w s r : jsstring) :
  expect_all w s = Some r -> s = w ++ r.
Proof.
  revert s; induction w as [|c w IH]; intros s; cbn [expect_all].
  - now intros [= ->].
  - destruct (expect c s) as [s'|] eqn:E; [|discriminate].
    apply expect_sound in E. subst s. intros H. apply IH in H. now subst.
Qed.

Lemma sound_mutual (f : nat) :
  (forall s v r, parse_value f s = Some (v, r) ->
     exists w t, blank w /\ Value t v /\ s = w ++ t ++ r)
  /\ (forall s vs r, parse_elements f s = Some (vs, r) ->
        exists es, Elements es vs /\ s = es ++ 93 :: r)
  /\ (forall s kvs r, parse_members f s = Some (kvs, r) ->
        exists ms, Members ms kvs /\ s = ms ++ 125 :: r).
Proof.
  induction f as [|f (IHv & IHe & IHm)]; [repeat split; discriminate|].
  repeat split.
  - (* a value *)
    intros s v r. cbn [parse_value].
    destruct (skip_ws s) as [|c t0] eqn:K; [discriminate|].
    apply skip_ws_eq in K as [w [Hw ->]].
    destruct (N.eqb_spec c 123) as [->|_].
    { destruct (expect 125 (skip_ws t0)) as [r'|] eqn:X.
      - intros [= <- <-]. apply expect_sound, skip_ws_eq in X as [w' [Hw' ->]].
        exists w, (123 :: w' ++ [125]). split; [assumption|].
        split; [now constructor|]. cbn. now rewrite <- app_assoc.
      - destruct (parse_members f t0) as [[ms r']|] eqn:M; [|discriminate].
        intros [= <- <-]. apply IHm in M as [mt [Hm ->]].
        exists w, (123 :: mt ++ [125]). split; [assumption|].
        split; [now constructor|]. cbn. now rewrite <- app_assoc. }
    destruct (N.eqb_spec c 91) as [->|_].
    { destruct (expect 93 (skip_ws t0)) as [r'|] eqn:X.
      - intros [= <- <-]. apply expect_sound, skip_ws_eq in X as [w' [Hw' ->]].
        exists w, (91 :: w' ++ [93]). split; [assumption|].
        split; [now constructor|]. cbn. now rewrite <- app_assoc.
      - destruct (parse_elements f t0) as [[vs r']|] eqn:M; [|discriminate].
        intros [= <- <-]. apply IHe in M as [et [He ->]].
        exists w, (91 :: et ++ [93]). split; [assumption|].
        split; [now constructor|]. cbn. now rewrite <- app_assoc. }
    destruct (N.eqb_spec c 34) as [->|_].
    { destruct (parse_string_body t0) as [[str r']|] eqn:P; [|discriminate].
      intros [= <- <-]. apply Chars_sound in P as [t [Ht ->]].
      exists w, (34 :: t ++ [34]). split; [assumption|].
      split; [now constructor|]. cbn. now rewrite <- app_assoc. }
    destruct ((c =? 45) || is_digit c).
    { destruct (parse_number (c :: t0)) as [[n r']|] eqn:P; [|discriminate].
      intros [= <- <-]. apply parse_number_sound in P as [Hn E].
      exists w, n. split; [assumption|]. split; [now constructor|].
      now rewrite E. }
    destruct (N.eqb_spec c 116) as [->|_].
    { destruct (expect_all (lit "rue") t0) as [r'|] eqn:X; [|discriminate].
      intros [= <- <-]. apply expect_all_sound in X as ->.
      exists w, (lit "true"). split; [assumption|]. split; [constructor|reflexivity]. }
    destruct (N.eqb_spec c 102) as [->|_].
    { destruct (expect_all (lit "alse") t0) as [r'|] eqn:X; [|discriminate].
      intros [= <- <-]. apply expect_all_sound in X as ->.
      exists w, (lit "false"). split; [assumption|]. split; [constructor|reflexivity]. }
    destruct (N.eqb_spec c 110) as [->|_]; [|discriminate].
    destruct (expect_all (lit "ull") t0) as [r'|] eqn:X; [|discriminate].
    intros [= <- <-]. apply expect_all_sound in X as ->.
    exists w, (lit "null"). split; [assumption|]. split; [constructor|reflexivity].
  - (* the elements of an array *)
    intros s vs r. cbn [parse_elements].
    destruct (parse_value f s) as [[v r1]|] eqn:V; [|discriminate].
    apply IHv in V as [w [t [Hw [Hv ->]]]].
    destruct (skip_ws r1) as [|c r'] eqn:K; [discriminate|].
    apply skip_ws_eq in K as [w2 [Hw2 ->]].
    assert (El : Element (w ++ t ++ w2) v) by now constructor.
    destruct (N.eqb_spec c 44) as [->|_].
    + destruct (parse_elements f r') as [[vs' r'']|] eqn:M; [|discriminate].
      intros [= <- <-]. apply IHe in M as [et [He ->]].
      exists ((w ++ t ++ w2) ++ 44 :: et). split; [now constructor|].
      now rewrite <- !app_assoc.
    + destruct (N.eqb_spec c 93) as [->|_]; [|discriminate].
      intros [= <- <-]. exists (w ++ t ++ w2). split; [now constructor|].
      now rewrite <- !app_assoc.
  - (* the members of an object *)
    intros s kvs r. cbn [parse_members].
    destruct (expect 34 (skip_ws s)) as [r0|] eqn:X; [|discriminate].
    apply expect_sound, skip_ws_eq in X as [w1 [Hw1 ->]].
    destruct (parse_string_body r0) as [[k r1]|] eqn:P; [|discriminate].
    apply Chars_sound in P as [t [Ht ->]].
    destruct (expect 58 (skip_ws r1)) as [r2|] eqn:X; [|discriminate].
    apply expect_sound, skip_ws_eq in X as [w2 [Hw2 ->]].
    destruct (parse_value f r2) as [[v r3]|] eqn:V; [|discriminate].
    apply IHv in V as [w3 [tv [Hw3 [Hv ->]]]].
    destruct (skip_ws r3) as [|c r4] eqn:K; [discriminate|].
    apply skip_ws_eq in K as [w4 [Hw4 ->]].
    assert (Mb : Member (w1 ++ 34 :: t ++ 34 :: w2 ++ 58 :: w3 ++ tv ++ w4)
                   (k, v)) by (constructor; try assumption; now constructor).
    destruct (N.eqb_spec c 44) as [->|_].
    + destruct (parse_members f r4) as [[ms r5]|] eqn:M; [|discriminate].
      intros [= <- <-]. apply IHm in M as [mt [Hm ->]].
      eexists. split; [apply Members_more; eassumption|].
      repeat (rewrite <- app_assoc; cbn [app]). reflexivity.
    + destruct (N.eqb_spec c 125) as [->|_]; [|discriminate].
      intros [= <- <-].
      eexists. split; [apply Members_one; eassumption|].
      repeat (rewrite <- app_assoc; cbn [app]). reflexivity.
Qed.

(** [JSON.parse] accepts exactly the texts of the grammar, and returns the
    value that the text denotes. *)
Theorem parse_iff_Json (s : jsstring) (v : json) :
  JSON.parse s = Ok v <-> Json s v.
Proof.
  unfold JSON.parse, Json. split.
  - destruct (parse_value (S (List.length s)) s) as [[v' r]|] eqn:E;
      [|discriminate].
    destruct (skip_ws r) eqn:K; [|discriminate]. intros [= ->].
    apply sound_mutual in E as [w [t [Hw [Hv ->]]]].
    apply skip_ws_nil_blank in K. now constructor.
  - intros H.
    destruct complete_mutual as (_ & C & _).
    destruct (C s v H [] (S (List.length s))) as [r' [E K]];
      [exact I | lia |].
    rewrite app_nil_r in E. now rewrite E, K.
Qed.

Lemma parse_throws_SyntaxError (s : jsstring) (e : error) :
  JSON.parse s = Throw e -> e = SyntaxError.
Proof.
  unfold JSON.parse.
  destruct (parse_value (S (List.length s)) s) as [[v r]|];
    [destruct (skip_ws r)|]; now intros [= <-].
Qed.

(** [JSON.parse] throws exactly on the texts that the grammar rejects. *)
Theorem parse_throws_iff (s : jsstring) :
  JSON.parse s = Throw SyntaxError <-> ~ valid s.
Proof.
  split.
  - intros H [v Hv]. apply parse_iff_Json in Hv. congruence.
  - intros H. destruct (JSON.parse s) as [v|e] eqn:E.
    + exfalso. apply H. exists v. now apply parse_iff_Json.
    + now rewrite (parse_throws_SyntaxError s e E).
Qed.

End GrammarFacts.

(** ** The codec *)

Module CodecFacts.
Import JSON JSONFacts GrammarFacts GitUri Expected.

Lemma expect_colon (r : jsstring) : expect 58 (skip_ws (58 :: r)) = Some r.
Proof. reflexivity. Qed.

Lemma parse_members_last (f : nat) (k v rest : jsstring) :
  parse_members (S (S f)) (member k v (125 :: rest))
  = Some ([(k, JStr v)], rest).
Proof.
  unfold member.
  rewrite parse_members_quote, parse_quote_body, expect_colon.
  rewrite parse_value_quote, parse_quote_body. reflexivity.
Qed.

Lemma parse_members_more (f : nat) (k v rest : jsstring) :
  parse_members (S (S f)) (member k v (44 :: rest))
  = match parse_members (S f) rest with
    | Some (ms, r) => Some ((k, JStr v) :: ms, r)
    | None => None
    end.
Proof.
  unfold member.
  rewrite parse_members_quote, parse_quote_body, expect_colon.
  rewrite parse_value_quote, parse_quote_body. reflexivity.
Qed.

Lemma parse_value_object (f : nat) (k v rest : jsstring) :
  parse_value (S f) (123 :: member k v rest)
  = match parse_members f (member k v rest) with
    | Some (ms, r) => Some (JObj (build_object ms), r)
    | None => None
    end.
Proof. reflexivity. Qed.

Lemma stringify_params (N2S : jsstring -> jsstring) (p r : jsstring) :
  stringify N2S (JObj [(k_path, JStr p); (k_ref, JStr r)]) = params_text p r.
Proof.
  unfold params_text, member. cbn.
  repeat (rewrite <- ?app_assoc; cbn). reflexivity.
Qed.

Lemma stringify_params_sub (N2S : jsstring -> jsstring) (p r sub : jsstring) :
  stringify N2S
    (JObj [(k_path, JStr p); (k_ref, JStr r); (k_submoduleOf, JStr sub)])
  = params_sub_text p r sub.
Proof.
  unfold params_sub_text, member. cbn.
  repeat (rewrite <- ?app_assoc; cbn). reflexivity.
Qed.

Lemma length_member (k v rest : jsstring) :
  List.length (member k v rest)
  = (5 + List.length (quote_body k) + List.length (quote_body v)
     + List.length rest)%nat.
Proof.
  unfold member. cbn [List.length]. rewrite length_app. cbn [List.length].
  rewrite length_app. cbn [List.length]. lia.
Qed.

Lemma parse_params_text (p r : jsstring) :
  JSON.parse (params_text p r)
  = Ok (JObj [(k_path, JStr p); (k_ref, JStr r)]).
Proof.
  unfold JSON.parse.
  assert (E : exists f, S (List.length (params_text p r)) = S (S (S (S f)))).
  { unfold params_text. cbn [List.length]. rewrite length_member.
    cbn [List.length]. rewrite length_member. eexists.
    cbn [List.length plus]. reflexivity. }
  destruct E as [f ->].
  unfold params_text. rewrite parse_value_object.
  rewrite parse_members_more, parse_members_last. reflexivity.
Qed.

Lemma parse_params_sub_text (p r sub : jsstring) :
  JSON.parse (params_sub_text p r sub)
  = Ok (JObj [(k_path, JStr p); (k_ref, JStr r); (k_submoduleOf, JStr sub)]).
Proof.
  unfold JSON.parse.
  assert (E : exists f,
             S (List.length (params_sub_text p r sub)) = S (S (S (S (S f))))).
  { unfold params_sub_text. cbn [List.length]. rewrite !length_member.
    cbn [List.length]. rewrite !length_member. eexists.
    cbn [List.length plus]. reflexivity. }
  destruct E as [f ->].
  unfold params_sub_text. rewrite parse_value_object.
  rewrite !parse_members_more, parse_members_last. reflexivity.
Qed.

End CodecFacts.

(* ================================================================== *)
(** * The codec: [toGitUri], [fromGitUri], [toMergeUris], [isGitUri] *)

Import JSON GitUri Expected.

Section Codec.

Variable fsPath : Uri.t -> jsstring.
Variable NumberToString : jsstring -> jsstring.

(** The query that the encoder writes, by the truthiness of
    [options.submoduleOf]. *)
Lemma query_toGitUri_plain (uri : Uri.t) (ref : jsstring) (o : GitUriOptions) :
  truthy_opt (submoduleOf o) = false ->
  Uri.query (toGitUri fsPath NumberToString uri ref o)
  = params_text (fsPath uri) ref.
Proof.
  intros H. unfold toGitUri.
  cbn [Uri.with_ Uri.query Uri.pick Uri.c_query].
  destruct (submoduleOf o) as [sub|]; cbn in H.
  - rewrite H. apply CodecFacts.stringify_params.
  - apply CodecFacts.stringify_params.
Qed.

Lemma query_toGitUri_sub (uri : Uri.t) (ref sub : jsstring) (o : GitUriOptions) :
  submoduleOf o = Some sub -> sub <> [] ->
  Uri.query (toGitUri fsPath NumberToString uri ref o)
  = params_sub_text (fsPath uri) ref sub.
Proof.
  intros E H. unfold toGitUri.
  cbn [Uri.with_ Uri.query Uri.pick Uri.c_query].
  rewrite E. apply JSFacts.truthy_true in H. rewrite H.
  apply CodecFacts.stringify_params_sub.
Qed.

Lemma decode_plain (uri : Uri.t) (ref : jsstring) (o : GitUriOptions) :
  truthy_opt (submoduleOf o) = false ->
  fromGitUri (toGitUri fsPath NumberToString uri ref o)
  = Ok (JObj [(k_path, JStr (fsPath uri)); (k_ref, JStr ref)]).
Proof.
  intros H. unfold fromGitUri. rewrite query_toGitUri_plain by assumption.
  apply CodecFacts.parse_params_text.
Qed.

Lemma decode_sub (uri : Uri.t) (ref sub : jsstring) (o : GitUriOptions) :
  submoduleOf o = Some sub -> sub <> [] ->
  fromGitUri (toGitUri fsPath NumberToString uri ref o)
  = Ok (JObj [(k_path, JStr (fsPath uri)); (k_ref, JStr ref);
              (k_submoduleOf, JStr sub)]).
Proof.
  intros E H. unfold fromGitUri.
  rewrite (query_toGitUri_sub uri ref sub) by assumption.
  apply CodecFacts.parse_params_sub_text.
Qed.

Lemma path_toGitUri (uri : Uri.t) (ref : jsstring) (o : GitUriOptions) :
  Uri.path (toGitUri fsPath NumberToString uri ref o)
  = if truthy_bool (replaceFileExtension o) then Uri.path uri ++ s_dot_git
    else if truthy_opt (submoduleOf o) then Uri.path uri ++ s_dot_diff
    else Uri.path uri.
Proof. reflexivity. Qed.

(** C1, as amended.  Decoding what the encoder wrote gives back the record
    [{path: uri.fsPath, ref}], field for field and with no [submoduleOf],
    when no [submoduleOf] is given (and also when the one given is the
    empty string); a [submoduleOf] that is not the empty string is
    recovered exactly.  This holds whatever [replaceFileExtension] is. *)
Theorem C1_roundtrip (uri : Uri.t) (ref : jsstring) (rfe : option bool) :
  fromGitUri (toGitUri fsPath NumberToString uri ref (mkOptions rfe None))
  = Ok (JObj [(k_path, JStr (fsPath uri)); (k_ref, JStr ref)])
  /\ fromGitUri (toGitUri fsPath NumberToString uri ref (mkOptions rfe (Some [])))
     = Ok (JObj [(k_path, JStr (fsPath uri)); (k_ref, JStr ref)])
  /\ forall sub, sub <> [] ->
       fromGitUri
         (toGitUri fsPath NumberToString uri ref (mkOptions rfe (Some sub)))
       = Ok (JObj [(k_path, JStr (fsPath uri)); (k_ref, JStr ref);
                   (k_submoduleOf, JStr sub)]).
Proof.
  repeat split.
  - now apply decode_plain.
  - now apply decode_plain.
  - intros sub H. now apply decode_sub.
Qed.

(** C3, as amended.  [toMergeUris] returns three locators, [base], [ours]
    and [theirs]; they decode to exactly [{path: uri.fsPath, ref}] with
    the refs [:1], [:2] and [:3] in that order (so with no
    [submoduleOf]): the decoded path is the file-system path of the
    source, which need not be its path component.  Each locator keeps the
    path component of the source as it is, without a suffix. *)
Theorem C3_merge_triple (uri : Uri.t) :
  let m := toMergeUris fsPath NumberToString uri in
  (fromGitUri (base m)
   = Ok (JObj [(k_path, JStr (fsPath uri)); (k_ref, JStr (lit ":1"))])
   /\ fromGitUri (ours m)
      = Ok (JObj [(k_path, JStr (fsPath uri)); (k_ref, JStr (lit ":2"))])
   /\ fromGitUri (theirs m)
      = Ok (JObj [(k_path, JStr (fsPath uri)); (k_ref, JStr (lit ":3"))]))
  /\ (Uri.path (base m) = Uri.path uri
      /\ Uri.path (ours m) = Uri.path uri
      /\ Uri.path (theirs m) = Uri.path uri).
Proof.
  cbn zeta. unfold toMergeUris; cbn [base ours theirs].
  split; [|repeat split].
  repeat split; now apply decode_plain.
Qed.

(** C7, as amended.  With [replaceFileExtension] true the path gets
    [.git], whatever [submoduleOf] is; otherwise a [submoduleOf] that is
    not the empty string gives [.diff]; otherwise (no [submoduleOf], or
    the empty string) the path is left as it is. *)
Theorem C7_suffix_precedence (uri : Uri.t) (ref : jsstring) :
  (forall sub,
     Uri.path (toGitUri fsPath NumberToString uri ref (mkOptions (Some true) sub))
     = Uri.path uri ++ s_dot_git)
  /\ (forall rfe sub, truthy_bool rfe = false -> sub <> [] ->
        Uri.path
          (toGitUri fsPath NumberToString uri ref (mkOptions rfe (Some sub)))
        = Uri.path uri ++ s_dot_diff)
  /\ (forall rfe, truthy_bool rfe = false ->
        Uri.path (toGitUri fsPath NumberToString uri ref (mkOptions rfe None))
        = Uri.path uri
        /\ Uri.path
             (toGitUri fsPath NumberToString uri ref (mkOptions rfe (Some [])))
           = Uri.path uri).
Proof.
  repeat split.
  - intros rfe sub H Hs. rewrite path_toGitUri.
    cbn [replaceFileExtension submoduleOf truthy_opt]. rewrite H.
    apply JSFacts.truthy_true in Hs. now rewrite Hs.
  - rewrite path_toGitUri. cbn [replaceFileExtension]. now rewrite H.
  - rewrite path_toGitUri. cbn [replaceFileExtension]. now rewrite H.
Qed.

(** C8.  Whatever the source, the ref and the options, what the encoder
    returns is recognised; an identifier whose scheme is not [git] is
    not. *)
Theorem C8_scheme_recognition :
  (forall uri ref options,
     isGitUri (toGitUri fsPath NumberToString uri ref options) = true)
  /\ (forall u, Uri.scheme u <> s_git -> isGitUri u = false).
Proof.
  split.
  - intros uri ref options. unfold isGitUri.
    apply RegExpFacts.test_re_git. reflexivity.
  - intros u H. unfold isGitUri.
    destruct (RegExp.test re_git (Uri.scheme u)) eqn:E; [|reflexivity].
    apply RegExpFacts.test_re_git in E. contradiction.
Qed.

(** C10.  The encoder leaves the authority and the fragment of the source
    as they are. *)
Theorem C10_authority_fragment_kept
  (uri : Uri.t) (ref : jsstring) (options : GitUriOptions) :
  Uri.authority (toGitUri fsPath NumberToString uri ref options)
  = Uri.authority uri
  /\ Uri.fragment (toGitUri fsPath NumberToString uri ref options)
     = Uri.fragment uri.
Proof. split; reflexivity. Qed.

End Codec.

(* ================================================================== *)
(** * Objects: reading a property after defining one *)

Module ObjFacts.
Import JSFacts.

Lemma obj_get_none (k : jsstring) (o : obj) :
  obj_get k o = None <-> ~ In k (keys o).
Proof.
  induction o as [|[k' v'] o IH]; cbn; [tauto|].
  destruct (str_eqb k k') eqn:E.
  - apply str_eqb_eq in E. split; [discriminate|]. intros H; exfalso; auto.
  - apply str_eqb_neq in E. rewrite IH. split.
    + intros H [H1|H1]; [congruence|contradiction].
    + tauto.
Qed.

Lemma has_key_false (k : jsstring) (o : obj) :
  has_key k o = false <-> obj_get k o = None.
Proof. unfold has_key; destruct (obj_get k o); split; congruence. Qed.

Lemma keys_update (k : jsstring) (v : json) (o : obj) :
  keys (update k v o) = keys o.
Proof.
  unfold keys.
  induction o as [|[k' v'] o IH]; cbn; [reflexivity|].
  destruct (str_eqb k k'); cbn; [reflexivity|]. now rewrite IH.
Qed.

Lemma obj_get_update (k k' : jsstring) (v : json) (o : obj) :
  obj_get k' o <> None ->
  obj_get k (update k' v o) = if str_eqb k k' then Some v else obj_get k o.
Proof.
  induction o as [|[k1 v1] o IH]; cbn; [congruence|].
  intros H.
  destruct (str_eqb k' k1) eqn:E1; cbn.
  - apply str_eqb_eq in E1; subst k1. now destruct (str_eqb k k').
  - destruct (str_eqb k k1) eqn:E2.
    + apply str_eqb_eq in E2; subst k1.
      destruct (str_eqb k k') eqn:E3; [|reflexivity].
      apply str_eqb_eq in E3; subst. rewrite str_eqb_refl in E1; discriminate.
    + now apply IH.
Qed.

Lemma in_insert_index (n : N) (k : jsstring) (v : json) (o : obj) (x : jsstring) :
  In x (keys (insert_index n k v o)) <-> x = k \/ In x (keys o).
Proof.
  induction o as [|[k1 v1] o IH]; cbn.
  - intuition congruence.
  - destruct (array_index k1) as [m|]; [destruct (m <? n)|]; cbn;
      try rewrite IH; cbn; intuition congruence.
Qed.

Lemma obj_get_insert_index (n : N) (k k' : jsstring) (v : json) (o : obj) :
  obj_get k' o = None ->
  obj_get k (insert_index n k' v o)
  = if str_eqb k k' then Some v else obj_get k o.
Proof.
  induction o as [|[k1 v1] o IH]; cbn; [reflexivity|].
  destruct (str_eqb k' k1) eqn:E1; [discriminate|]. intros H.
  assert (D : obj_get k ((k', v) :: (k1, v1) :: o)
              = if str_eqb k k' then Some v else obj_get k ((k1, v1) :: o))
    by reflexivity.
  destruct (array_index k1) as [m|]; [destruct (m <? n)|]; try exact D.
  cbn. destruct (str_eqb k k1) eqn:E2.
  - apply str_eqb_eq in E2; subst k1.
    destruct (str_eqb k k') eqn:E3; [|reflexivity].
    apply str_eqb_eq in E3; subst. rewrite str_eqb_refl in E1; discriminate.
  - now apply IH.
Qed.

Lemma obj_get_app_new (k k' : jsstring) (v : json) (o : obj) :
  obj_get k' o = None ->
  obj_get k (o ++ [(k', v)]) = if str_eqb k k' then Some v else obj_get k o.
Proof.
  induction o as [|[k1 v1] o IH]; cbn.
  - now destruct (str_eqb k k').
  - destruct (str_eqb k' k1) eqn:E1; [discriminate|]. intros H.
    destruct (str_eqb k k1) eqn:E2.
    + apply str_eqb_eq in E2; subst k1.
      destruct (str_eqb k k') eqn:E3; [|reflexivity].
      apply str_eqb_eq in E3; subst. rewrite str_eqb_refl in E1; discriminate.
    + now apply IH.
Qed.

(** Reading after [CreateDataProperty]. *)
Lemma obj_get_obj_set (k k' : jsstring) (v : json) (o : obj) :
  obj_get k (obj_set k' v o) = if str_eqb k k' then Some v else obj_get k o.
Proof.
  unfold obj_set. destruct (has_key k' o) eqn:E.
  - apply obj_get_update. unfold has_key in E.
    destruct (obj_get k' o); congruence.
  - apply has_key_false in E.
    destruct (array_index k').
    + now apply obj_get_insert_index.
    + now apply obj_get_app_new.
Qed.

Lemma NoDup_insert_index (n : N) (k : jsstring) (v : json) (o : obj) :
  ~ In k (keys o) -> NoDup (keys o) -> NoDup (keys (insert_index n k v o)).
Proof.
  induction o as [|[k1 v1] o IH]; cbn; intros Hk Hn.
  - constructor; [tauto | constructor].
  - assert (D : NoDup (k :: k1 :: keys o)) by (constructor; assumption).
    destruct (array_index k1) as [m|]; [destruct (m <? n)|]; try exact D.
    cbn. inversion Hn; subst. constructor.
    + fold (keys (insert_index n k v o)). rewrite in_insert_index.
      intros [->|H]; tauto.
    + apply IH; tauto.
Qed.

(** No property is defined twice. *)
Lemma NoDup_obj_set (k : jsstring) (v : json) (o : obj) :
  NoDup (keys o) -> NoDup (keys (obj_set k v o)).
Proof.
  intros Hn. unfold obj_set. destruct (has_key k o) eqn:E.
  - now rewrite keys_update.
  - apply has_key_false, obj_get_none in E.
    destruct (array_index k).
    + now apply NoDup_insert_index.
    + unfold keys. rewrite map_app. cbn.
      apply NoDup_app. repeat split; try assumption.
      * constructor; [tauto | constructor].
      * intros x H1 [<-|[]]. contradiction.
Qed.

Lemma NoDup_define_all (props target : obj) :
  NoDup (keys target) -> NoDup (keys (define_all target props)).
Proof.
  revert target; induction props as [|[k v] props IH]; intros target H; cbn.
  - assumption.
  - apply IH. now apply NoDup_obj_set.
Qed.

Lemma obj_get_define_all (k : jsstring) (props target : obj) :
  NoDup (keys props) ->
  obj_get k (define_all target props)
  = match obj_get k props with
    | Some v => Some v
    | None => obj_get k target
    end.
Proof.
  revert target; induction props as [|[k1 v1] props IH]; intros target H; cbn.
  - reflexivity.
  - inversion H; subst. fold (define_all (obj_set k1 v1 target) props).
    rewrite IH by assumption. rewrite obj_get_obj_set.
    destruct (str_eqb k k1) eqn:E; [|reflexivity].
    apply str_eqb_eq in E; subst k1.
    match goal with Hn : ~ In _ _ |- _ => apply obj_get_none in Hn; now rewrite Hn end.
Qed.

(** An object that [JSON.parse] built has no property twice. *)
Lemma NoDup_build_object (ms : list (jsstring * json)) :
  NoDup (keys (build_object ms)).
Proof. apply NoDup_define_all. constructor. Qed.

Lemma parse_value_object_built (f : nat) (s r : jsstring) (o : obj) :
  parse_value f s = Some (JObj o, r) -> exists ms, o = build_object ms.
Proof.
  destruct f as [|f]; [discriminate|]. cbn [parse_value].
  destruct (skip_ws s) as [|c t]; [discriminate|].
  repeat match goal with
         | |- context [if ?b then _ else _] => destruct b
         | |- context [match ?x with Some _ => _ | None => _ end] =>
             destruct x as [[? ?]|] || destruct x
         end;
    try discriminate; intros [= <- <-];
    (now exists [] ) || eauto.
Qed.

Lemma parse_object_NoDup (s : jsstring) (o : obj) :
  JSON.parse s = Ok (JObj o) -> NoDup (keys o).
Proof.
  unfold JSON.parse.
  destruct (parse_value (S (List.length s)) s) as [[v r]|] eqn:E; [|discriminate].
  destruct (skip_ws r); [|discriminate]. intros [= ->].
  apply parse_value_object_built in E as [ms ->]. apply NoDup_build_object.
Qed.

(** Copying an object that has no property twice keeps every property. *)
Lemma obj_get_spread (k : jsstring) (o : obj) :
  NoDup (keys o) -> obj_get k (spread (JObj o)) = obj_get k o.
Proof.
  intros H. unfold spread. cbn [own_enumerable].
  rewrite obj_get_define_all by assumption. now destruct (obj_get k o).
Qed.

End ObjFacts.

(* ================================================================== *)
(** * The resolver *)

Section Resolver.

Variable realpathSync : FS.value -> result jsstring.
Variable NumberToString : jsstring -> jsstring.

(** What a call of [resolvePath] does: its value, and the one lookup. *)
Lemma resolvePath_run (path : jsstring) (l : FS.log) :
  resolvePath realpathSync path l
  = (Ok (canonical_or_same realpathSync path), l ++ [Some (JStr path)]).
Proof.
  unfold resolvePath, FS.try_catch, fs_realpathSync, canonical_or_same.
  now destruct (realpathSync (Some (JStr path))).
Qed.

Lemma resolveUri_run (uri : Uri.t) (l : FS.log) :
  resolveUri realpathSync uri l
  = (Ok (resolved_uri realpathSync uri), l ++ [Some (JStr (Uri.path uri))]).
Proof.
  unfold resolveUri, FS.bind. rewrite resolvePath_run. reflexivity.
Qed.

(** What decoding with resolution does once the query has parsed. *)
Lemma fromGitUriAndResolve_run (uri : Uri.t) (v : json) (l : FS.log) :
  JSON.parse (Uri.query uri) = Ok v ->
  fromGitUriAndResolve realpathSync uri l
  = (Ok (resolved_params realpathSync v), l ++ params_lookups v).
Proof.
  intros E.
  unfold fromGitUriAndResolve, FS.bind, FS.lift, FS.try_catch, FS.ret,
    fs_realpathSync, resolved_params, params_lookups.
  rewrite E. destruct (get_path v) as [p|e].
  - now destruct (realpathSync p).
  - now rewrite app_nil_r.
Qed.

Lemma fromGitUriAndResolve_throw (uri : Uri.t) (e : error) (l : FS.log) :
  JSON.parse (Uri.query uri) = Throw e ->
  fromGitUriAndResolve realpathSync uri l = (Throw e, l).
Proof.
  intros E. unfold fromGitUriAndResolve, FS.bind, FS.lift. now rewrite E.
Qed.

Lemma for_each_run {A B : Type} (f : A -> FS.M B) (g : A -> B)
  (h : A -> FS.value) (xs : list A) :
  (forall x l, f x l = (Ok (g x), l ++ [h x])) ->
  forall l, FS.for_each f xs l = (Ok (List.map g xs), l ++ List.map h xs).
Proof.
  intros H. induction xs as [|x xs IH]; intros l; cbn.
  - unfold FS.ret. now rewrite app_nil_r.
  - unfold FS.bind. rewrite H, IH. unfold FS.ret.
    now rewrite <- app_assoc.
Qed.

(** C6.  [resolvePath] never throws.  It makes one call to
    [fs.realpathSync], for the path it was given; it returns what that
    call returned when the call succeeded, and the path it was given,
    unchanged, when the call threw, whatever the exception. *)
Theorem C6_resolvePath_best_effort (path : jsstring) (l : FS.log) :
  exists r,
    resolvePath realpathSync path l = (Ok r, l ++ [Some (JStr path)])
    /\ (forall q, realpathSync (Some (JStr path)) = Ok q -> r = q)
    /\ (forall e, realpathSync (Some (JStr path)) = Throw e -> r = path).
Proof.
  exists (canonical_or_same realpathSync path). split.
  - apply resolvePath_run.
  - unfold canonical_or_same. split; intros x E; now rewrite E.
Qed.

(** C5.  When the query is valid JSON, [fromGitUriAndResolve] returns and
    does not throw.  If reading [path] and resolving it succeed, the
    result is a copy of the parsed value with [path] set to the resolved
    path: for a parsed object, [path] reads as the resolved path and
    every other property reads as before.  If either fails, the result is
    the parsed value itself. *)
Theorem C5_decode_and_resolve (uri : Uri.t) (v : json) (l : FS.log) :
  JSON.parse (Uri.query uri) = Ok v ->
  exists r l',
    fromGitUriAndResolve realpathSync uri l = (Ok r, l')
    /\ (forall p q, get_path v = Ok p -> realpathSync p = Ok q ->
          r = JObj (obj_set k_path (JStr q) (spread v))
          /\ forall o, v = JObj o ->
               exists o', r = JObj o'
                 /\ obj_get k_path o' = Some (JStr q)
                 /\ forall k, k <> k_path -> obj_get k o' = obj_get k o)
    /\ (forall p e, get_path v = Ok p -> realpathSync p = Throw e -> r = v)
    /\ (forall e, get_path v = Throw e -> r = v).
Proof.
  intros E. eexists _, _.
  split; [exact (fromGitUriAndResolve_run uri v l E)|].
  unfold resolved_params. split; [|split].
  - intros p q Hp Hq. rewrite Hp, Hq. split; [reflexivity|].
    intros o ->. eexists; split; [reflexivity|].
    split.
    + rewrite ObjFacts.obj_get_obj_set. now rewrite JSFacts.str_eqb_refl.
    + intros k Hk. rewrite ObjFacts.obj_get_obj_set.
      apply JSFacts.str_eqb_neq in Hk. rewrite Hk.
      apply ObjFacts.obj_get_spread.
      now apply ObjFacts.parse_object_NoDup with (s := Uri.query uri).
  - intros p e Hp He. now rewrite Hp, He.
  - intros e He. now rewrite He.
Qed.

(** C9.  Both batch resolvers return and do not throw.  The result has
    the length of the input, and its i-th element is the i-th element of
    the input with the path of its identifier resolved by [resolvePath]
    and every other field copied.  No folders ([undefined], or [[]]) give
    [[]]. *)
Theorem C9_batch_shape_and_order :
  (forall folders l,
     exists out l',
       resolveWorkspaceFolders realpathSync (Some folders) l = (Ok out, l')
       /\ List.length out = List.length folders
       /\ forall i,
            nth_error out i
            = option_map
                (fun f => mkWorkspaceFolder
                            (resolved_uri realpathSync (wf_uri f))
                            (wf_name f) (wf_index f))
                (nth_error folders i))
  /\ (forall (D E : Type) (editors : list (TextEditor D E)) l,
        exists out l',
          resolveWindowVisibleTextEditors realpathSync editors l = (Ok out, l')
          /\ List.length out = List.length editors
          /\ forall i,
               nth_error out i
               = option_map
                   (fun e => mkTextEditor
                               (mkTextDocument
                                  (resolved_uri realpathSync
                                     (doc_uri (document e)))
                                  (doc_rest (document e)))
                               (editor_rest e))
                   (nth_error editors i))
  /\ (forall l, resolveWorkspaceFolders realpathSync None l = (Ok [], l))
  /\ (forall l, resolveWorkspaceFolders realpathSync (Some []) l = (Ok [], l)).
Proof.
  repeat split.
  - intros folders l. eexists _, _. split; [|split].
    + unfold resolveWorkspaceFolders.
      apply (for_each_run _
               (fun f => mkWorkspaceFolder
                           (resolved_uri realpathSync (wf_uri f))
                           (wf_name f) (wf_index f))
               (fun f => Some (JStr (Uri.path (wf_uri f))))).
      intros x l0. unfold FS.bind. rewrite resolvePath_run. reflexivity.
    + apply length_map.
    + intros i. apply nth_error_map.
  - intros D E editors l. eexists _, _. split; [|split].
    + unfold resolveWindowVisibleTextEditors.
      apply (for_each_run _
               (fun e => mkTextEditor
                           (mkTextDocument
                              (resolved_uri realpathSync (doc_uri (document e)))
                              (doc_rest (document e)))
                           (editor_rest e))
               (fun e => Some (JStr (Uri.path (doc_uri (document e)))))).
      intros x l0. unfold FS.bind. rewrite resolveUri_run. reflexivity.
    + apply length_map.
    + intros i. apply nth_error_map.
Qed.

(** What [resolveUriWithGitScheme] does, case by case. *)
Lemma resolveUriWithGitScheme_run (uri : Uri.t) (l : FS.log) :
  let endsInGit := RegExp.test re_any_git (Uri.path uri) in
  let target := if endsInGit
                then RegExp.replace re_any_git (Uri.path uri) []
                else Uri.path uri in
  let old := canonical_or_same realpathSync target in
  let path := if endsInGit then old ++ s_dot_git else old in
  resolveUriWithGitScheme realpathSync NumberToString uri l
  = if truthy (Uri.query uri) then
      match JSON.parse (Uri.query uri) with
      | Ok v =>
          (Ok (Uri.mk (Uri.scheme uri) (Uri.authority uri) path
                 (stringify NumberToString (resolved_params realpathSync v))
                 (Uri.fragment uri)),
           (l ++ [Some (JStr target)]) ++ params_lookups v)
      | Throw _ => (Ok uri, l ++ [Some (JStr target)])
      end
    else
      (Ok (Uri.mk (Uri.scheme uri) (Uri.authority uri) path (Uri.query uri)
             (Uri.fragment uri)),
       l ++ [Some (JStr target)]).
Proof.
  cbn zeta. unfold resolveUriWithGitScheme, FS.try_catch, FS.bind.
  rewrite resolvePath_run.
  destruct (truthy (Uri.query uri)); [|reflexivity].
  destruct (JSON.parse (Uri.query uri)) as [v|e] eqn:E.
  - rewrite (fromGitUriAndResolve_run uri v _ E). reflexivity.
  - rewrite (fromGitUriAndResolve_throw uri e _ E). reflexivity.
Qed.

(** The dot of [/.git$/] stands for any unit but a line terminator: with
    an empty query, a path that ends in such a unit and [git] loses its
    last four units before it is resolved, and gets [.git] after. *)
Lemma resolveUriWithGitScheme_any_unit (uri : Uri.t) (pre : jsstring) (c : N)
  (l : FS.log) :
  Uri.query uri = [] ->
  Uri.path uri = pre ++ c :: s_git ->
  RegExp.line_terminator c = false ->
  exists r l',
    resolveUriWithGitScheme realpathSync NumberToString uri l = (Ok r, l')
    /\ Uri.path r = canonical_or_same realpathSync pre ++ s_dot_git.
Proof.
  intros Hq Hp Hc.
  pose proof (resolveUriWithGitScheme_run uri l) as R. cbn zeta in R.
  rewrite Hq in R. cbn [truthy] in R.
  eexists _, _. split; [exact R|]. cbn [Uri.path]. rewrite Hp.
  rewrite RegExpFacts.test_any_git_hit by assumption.
  now rewrite RegExpFacts.replace_any_git_hit by assumption.
Qed.

(** C2, as amended.  [resolveUriWithGitScheme] returns and does not throw.
    When the query is empty or valid JSON: if the path ends in [.git],
    the result path is [resolvePath] of the path without these four
    units, followed by [.git]; if the path does not end in a unit other
    than a line terminator followed by [git], the result path is
    [resolvePath] of the whole path.  When the query is not empty and is
    not valid JSON, the identifier is returned as it is. *)
Theorem C2_suffix_aware_resolution (u : Uri.t) (l : FS.log) :
  exists r l',
    resolveUriWithGitScheme realpathSync NumberToString u l = (Ok r, l')
    /\ ((Uri.query u = [] \/ exists v, JSON.parse (Uri.query u) = Ok v) ->
        (forall pre, Uri.path u = pre ++ s_dot_git ->
           Uri.path r = canonical_or_same realpathSync pre ++ s_dot_git)
        /\ ((forall pre c, Uri.path u = pre ++ c :: s_git ->
               RegExp.line_terminator c = true) ->
            Uri.path r = canonical_or_same realpathSync (Uri.path u)))
    /\ (Uri.query u <> [] ->
        (exists e, JSON.parse (Uri.query u) = Throw e) -> r = u).
Proof.
  pose proof (resolveUriWithGitScheme_run u l) as R. cbn zeta in R.
  destruct (truthy (Uri.query u)) eqn:T.
  - destruct (JSON.parse (Uri.query u)) as [v|e] eqn:E.
    + eexists _, _. split; [exact R|]. split.
      * intros _. split.
        -- intros pre Hp. cbn [Uri.path]. rewrite Hp.
           change (pre ++ s_dot_git) with (pre ++ 46 :: s_git).
           rewrite RegExpFacts.test_any_git_hit by reflexivity.
           now rewrite RegExpFacts.replace_any_git_hit by reflexivity.
        -- intros Hm. cbn [Uri.path].
           now rewrite (RegExpFacts.test_any_git_miss _ Hm).
      * intros _ [e He]. discriminate.
    + eexists _, _. split; [exact R|]. split.
      * intros [Hq|[v Hv]]; [|discriminate].
        rewrite Hq in T. discriminate.
      * reflexivity.
  - eexists _, _. split; [exact R|]. split.
    + intros _. split.
      * intros pre Hp. cbn [Uri.path]. rewrite Hp.
        change (pre ++ s_dot_git) with (pre ++ 46 :: s_git).
        rewrite RegExpFacts.test_any_git_hit by reflexivity.
        now rewrite RegExpFacts.replace_any_git_hit by reflexivity.
      * intros Hm. cbn [Uri.path].
        now rewrite (RegExpFacts.test_any_git_miss _ Hm).
    + intros Hq. apply JSFacts.truthy_true in Hq. congruence.
Qed.

End Resolver.

(* ================================================================== *)
(** * Decoding is strict *)

(** C4.  [fromGitUri] throws exactly when the query is not a text of the
    JSON grammar, and what it throws is the parser's [SyntaxError]; when
    the query is a JSON text it returns the value that the text denotes,
    whatever its shape: [null], an array and an object without [ref] are
    returned as they are. *)
Theorem C4_strict_decode (uri : Uri.t) :
  (fromGitUri uri = Throw SyntaxError <-> ~ Grammar.valid (Uri.query uri))
  /\ (forall e, fromGitUri uri = Throw e -> e = SyntaxError)
  /\ (forall v, fromGitUri uri = Ok v <-> Grammar.Json (Uri.query uri) v)
  /\ (Uri.query uri = lit "null" -> fromGitUri uri = Ok JNull)
  /\ (Uri.query uri = lit "[]" -> fromGitUri uri = Ok (JArr []))
  /\ (Uri.query uri = [123; 34; 112; 97; 116; 104; 34; 58; 34; 47; 97; 34; 125] ->
      fromGitUri uri = Ok (JObj [(k_path, JStr (lit "/a"))])).
Proof.
  unfold fromGitUri. repeat split.
  - apply GrammarFacts.parse_throws_iff.
  - apply GrammarFacts.parse_throws_iff.
  - apply GrammarFacts.parse_throws_SyntaxError.
  - apply GrammarFacts.parse_iff_Json.
  - apply GrammarFacts.parse_iff_Json.
  - intros ->. reflexivity.
  - intros ->. reflexivity.
  - intros ->. reflexivity.
Qed.

(* ================================================================== *)
(** * The properties at work in the small world *)

Lemma C1_roundtrip_witness :
  lit "/repo" <> []
  /\ fromGitUri
       (toGitUri Demo.fsPath Demo.NumberToString
          (Demo.plain "/repo/sub/a.txt") (lit "abc123")
          (mkOptions (Some false) (Some (lit "/repo"))))
     = Ok (JObj [(k_path, JStr (lit "/repo/sub/a.txt"));
                 (k_ref, JStr (lit "abc123"));
                 (k_submoduleOf, JStr (lit "/repo"))]).
Proof.
  split; [discriminate|].
  apply (proj2 (proj2 (C1_roundtrip Demo.fsPath Demo.NumberToString
                         (Demo.plain "/repo/sub/a.txt") (lit "abc123")
                         (Some false)))).
  discriminate.
Defined.

(** An empty [submoduleOf] is given and is not recovered: the decoded
    record has two fields. *)
Lemma C1_counterexample :
  let decoded :=
    fromGitUri
      (toGitUri Demo.fsPath Demo.NumberToString
         (Demo.plain "/repo/a.txt") (lit "abc123")
         (mkOptions (Some false) (Some []))) in
  decoded = Ok (JObj [(k_path, JStr (lit "/repo/a.txt"));
                      (k_ref, JStr (lit "abc123"))])
  /\ decoded <> Ok (JObj [(k_path, JStr (lit "/repo/a.txt"));
                          (k_ref, JStr (lit "abc123"));
                          (k_submoduleOf, JStr [])]).
Proof. vm_compute. split; [reflexivity | discriminate]. Qed.

(** The source has the path [/C:/Dir/a.txt]; its file-system path is
    [c:/Dir/a.txt], and that is the path the three locators decode to,
    not the path of the source. *)
Lemma C3_counterexample :
  let u := Demo.plain "/C:/Dir/a.txt" in
  let m := toMergeUris DriveLetter.fsPath Demo.NumberToString u in
  fromGitUri (base m)
  = Ok (JObj [(k_path, JStr (lit "c:/Dir/a.txt")); (k_ref, JStr (lit ":1"))])
  /\ fromGitUri (ours m)
     = Ok (JObj [(k_path, JStr (lit "c:/Dir/a.txt")); (k_ref, JStr (lit ":2"))])
  /\ fromGitUri (theirs m)
     = Ok (JObj [(k_path, JStr (lit "c:/Dir/a.txt")); (k_ref, JStr (lit ":3"))])
  /\ lit "c:/Dir/a.txt" <> Uri.path u.
Proof. vm_compute. repeat split; (reflexivity || discriminate). Qed.

Lemma C7_suffix_precedence_witness :
  truthy_bool None = false /\ lit "/repo" <> []
  /\ Uri.path
       (toGitUri Demo.fsPath Demo.NumberToString
          (Demo.plain "/repo/sub/a.txt") (lit "abc123")
          (mkOptions None (Some (lit "/repo"))))
     = lit "/repo/sub/a.txt.diff".
Proof.
  split; [reflexivity|]. split; [discriminate|].
  apply (proj1 (proj2 (C7_suffix_precedence Demo.fsPath Demo.NumberToString
                         (Demo.plain "/repo/sub/a.txt") (lit "abc123")))).
  - reflexivity.
  - discriminate.
Defined.

(** [submoduleOf] is set, to the empty string, [replaceFileExtension] is
    not set, and no [.diff] is appended. *)
Lemma C7_counterexample :
  let encoded :=
    toGitUri Demo.fsPath Demo.NumberToString
      (Demo.plain "/repo/a.txt") (lit "abc123")
      (mkOptions None (Some [])) in
  Uri.path encoded = lit "/repo/a.txt"
  /\ Uri.path encoded <> lit "/repo/a.txt" ++ s_dot_diff.
Proof. vm_compute. split; [reflexivity | discriminate]. Qed.

Lemma C8_scheme_recognition_witness :
  Uri.scheme (Demo.plain "/repo/a.txt") <> s_git
  /\ isGitUri (Demo.plain "/repo/a.txt") = false.
Proof.
  split; [discriminate|].
  apply (proj2 (C8_scheme_recognition Demo.fsPath Demo.NumberToString)).
  discriminate.
Defined.

Lemma C6_resolvePath_witness :
  Demo.realpathSync (Some (JStr (lit "/l"))) = Ok (lit "/t")
  /\ exists r,
       resolvePath Demo.realpathSync (lit "/l") []
       = (Ok r, [Some (JStr (lit "/l"))])
       /\ r = lit "/t".
Proof.
  split; [reflexivity|].
  destruct (C6_resolvePath_best_effort Demo.realpathSync (lit "/l") [])
    as [r [H1 [H2 _]]].
  exists r. split; [exact H1|]. apply H2. reflexivity.
Defined.

Lemma C5_decode_and_resolve_witness :
  let u := Uri.mk s_git [] (lit "/l")
             (params_text (lit "/l") (lit "HEAD")) [] in
  JSON.parse (Uri.query u)
  = Ok (JObj [(k_path, JStr (lit "/l")); (k_ref, JStr (lit "HEAD"))])
  /\ exists r l',
       fromGitUriAndResolve Demo.realpathSync u [] = (Ok r, l')
       /\ r = JObj [(k_path, JStr (lit "/t")); (k_ref, JStr (lit "HEAD"))].
Proof.
  cbn zeta. split; [reflexivity|].
  destruct (C5_decode_and_resolve Demo.realpathSync
              (Uri.mk s_git [] (lit "/l")
                 (params_text (lit "/l") (lit "HEAD")) [])
              (JObj [(k_path, JStr (lit "/l")); (k_ref, JStr (lit "HEAD"))])
              [] eq_refl)
    as [r [l' [H1 [H2 _]]]].
  exists r, l'. split; [exact H1|].
  destruct (H2 (Some (JStr (lit "/l"))) (lit "/t") eq_refl eq_refl) as [E _].
  rewrite E. reflexivity.
Defined.

Lemma C2_suffix_aware_resolution_witness :
  let u := Demo.plain "/l.git" in
  Uri.query u = []
  /\ Uri.path u = lit "/l" ++ s_dot_git
  /\ exists r l',
       resolveUriWithGitScheme Demo.realpathSync Demo.NumberToString u []
       = (Ok r, l')
       /\ Uri.path r = lit "/t" ++ s_dot_git.
Proof.
  cbn zeta. split; [reflexivity|]. split; [reflexivity|].
  destruct (C2_suffix_aware_resolution Demo.realpathSync Demo.NumberToString
              (Demo.plain "/l.git") [])
    as [r [l' [H1 [H2 _]]]].
  exists r, l'. split; [exact H1|].
  destruct (H2 (or_introl eq_refl)) as [H3 _].
  apply (H3 (lit "/l")). reflexivity.
Defined.

(** The path ends in [.git] and [/l] resolves to [/t], but the query is
    not empty and is not JSON: the identifier comes back as it is, with
    the path [/l.git] and not [/t.git]. *)
Lemma C2_counterexample :
  let u := Demo.file "/l.git" "x" in
  Uri.path u = lit "/l" ++ s_dot_git
  /\ canonical_or_same Demo.realpathSync (lit "/l") = lit "/t"
  /\ exists r l',
       resolveUriWithGitScheme Demo.realpathSync Demo.NumberToString u []
       = (Ok r, l')
       /\ Uri.path r
          <> canonical_or_same Demo.realpathSync (lit "/l") ++ s_dot_git.
Proof.
  cbn zeta. split; [reflexivity|]. split; [reflexivity|].
  eexists _, _. split; [vm_compute; reflexivity|].
  vm_compute. discriminate.
Qed.

(** [/.git$/] takes any unit for its dot: a path that ends in [igit] is
    cut and gets [.git] as well. *)
Example resolve_path_ending_in_igit :
  resolveUriWithGitScheme Demo.realpathSync Demo.NumberToString
    (Demo.plain "/a/digit") []
  = (Ok (Demo.plain "/a/d.git"), [Some (JStr (lit "/a/d"))]).
Proof. reflexivity. Qed.

Lemma C4_strict_decode_witness :
  Uri.query (Demo.file "/repo/a.txt" "null") = lit "null"
  /\ fromGitUri (Demo.file "/repo/a.txt" "null") = Ok JNull.
Proof.
  split; [reflexivity|].
  apply (proj1 (proj2 (proj2 (proj2
           (C4_strict_decode (Demo.file "/repo/a.txt" "null")))))).
  reflexivity.
Defined.

(** The example of the specification: encoding [/repo/a.txt] at [abc123]. *)
Example encode_example :
  toGitUri Demo.fsPath Demo.NumberToString
    (Demo.plain "/repo/a.txt") (lit "abc123") default_options
  = Uri.mk s_git [] (lit "/repo/a.txt")
      [123; 34; 112; 97; 116; 104; 34; 58; 34; 47; 114; 101; 112; 111; 47;
       97; 46; 116; 120; 116; 34; 44; 34; 114; 101; 102; 34; 58; 34; 97; 98;
       99; 49; 50; 51; 34; 125] [].
Proof. reflexivity. Qed.

(* ================================================================== *)
(** * Further properties of the module *)

Module MoreFacts.

Lemma stringify_params_obj (N2S : jsstring -> jsstring)
  (p r : jsstring) (sub : option jsstring) :
  stringify N2S (JObj (params_obj p r sub)) = params_obj_text p r sub.
Proof.
  destruct sub; cbn [params_obj params_obj_text].
  - apply CodecFacts.stringify_params_sub.
  - apply CodecFacts.stringify_params.
Qed.

Lemma parse_params_obj_text (p r : jsstring) (sub : option jsstring) :
  JSON.parse (params_obj_text p r sub) = Ok (JObj (params_obj p r sub)).
Proof.
  destruct sub; cbn [params_obj params_obj_text].
  - apply CodecFacts.parse_params_sub_text.
  - apply CodecFacts.parse_params_text.
Qed.

Lemma truthy_params_obj_text (p r : jsstring) (sub : option jsstring) :
  truthy (params_obj_text p r sub) = true.
Proof. now destruct sub. Qed.

Lemma app_last_neq (x y : jsstring) (a b : N) (xs ys : jsstring) :
  a <> b -> x ++ xs ++ [a] <> y ++ ys ++ [b].
Proof.
  intros H E. rewrite !app_assoc in E.
  apply app_inj_tail in E as [_ E]. contradiction.
Qed.

End MoreFacts.

(** ** What is printed for a flat object is read back *)

Module FlatFacts.
Import Grammar.

(** What [JSON.stringify] writes for a string is the text of that string
    in the grammar. *)
Lemma Chars_quote_body (s : jsstring) : Chars (quote_body s) s.
Proof.
  destruct (GrammarFacts.Chars_sound _ _ _ (JSONFacts.parse_quote_body s []))
    as [t [Ht E]].
  apply (app_inj_tail (quote_body s) t 34 34) in E as [-> _]. exact Ht.
Qed.

Lemma Element_of_Value (t : jsstring) (v : json) : Value t v -> Element t v.
Proof.
  intros H. pose proof (Element_intro [] t [] v (Forall_nil _) H (Forall_nil _))
    as E. cbn [app] in E. now rewrite app_nil_r in E.
Qed.

Section Printer.

Variable NumberToString : jsstring -> jsstring.

Lemma Member_text (kv : jsstring * json) :
  (exists s, snd kv = JStr s) ->
  Member (quote (fst kv) ++ 58 :: stringify NumberToString (snd kv)) kv.
Proof.
  destruct kv as [k v]. cbn [fst snd]. intros [s ->].
  pose proof (Member_intro [] (quote_body k) k [] (quote s) (JStr s)
                (Forall_nil _) (Chars_quote_body k) (Forall_nil _)
                (Element_of_Value _ _ (V_string _ _ (Chars_quote_body s))))
    as M.
  unfold quote in *. cbn [fst snd stringify app] in *.
  rewrite <- app_assoc. exact M.
Qed.

Lemma Members_join (kv : jsstring * json) (o : obj) :
  flat (kv :: o) ->
  Members
    (join_with_comma
       (List.map
          (fun kv => quote (fst kv) ++ 58 :: stringify NumberToString (snd kv))
          (kv :: o)))
    (kv :: o).
Proof.
  unfold join_with_comma. cbn [List.map].
  revert kv; induction o as [|kv2 o IH]; intros kv H; inversion H; subst.
  - cbn [List.map flat_map]. rewrite app_nil_r.
    apply Members_one. now apply Member_text.
  - cbn [List.map flat_map]. cbn [app].
    apply Members_more; [now apply Member_text|]. now apply IH.
Qed.

(** The text of a flat object denotes the object that its properties,
    defined in order, make. *)
Lemma Value_stringify_flat (o : obj) :
  flat o -> Value (stringify NumberToString (JObj o)) (JObj (build_object o)).
Proof.
  intros H. destruct o as [|kv o].
  - apply (V_object_empty []). constructor.
  - cbn [stringify]. apply V_object.
    exact (Members_join kv o H).
Qed.

Lemma parse_stringify_flat (o : obj) :
  flat o ->
  JSON.parse (stringify NumberToString (JObj o)) = Ok (JObj (build_object o)).
Proof.
  intros H. apply GrammarFacts.parse_iff_Json.
  apply Element_of_Value. now apply Value_stringify_flat.
Qed.

End Printer.

Lemma flat_update (k s : jsstring) (o : obj) :
  flat o -> flat (update k (JStr s) o).
Proof.
  induction 1 as [|[k' v'] o Hkv Ho IH]; cbn; [constructor|].
  destruct (str_eqb k k'); constructor; try assumption.
  now exists s.
Qed.

Lemma flat_insert_index (n : N) (k s : jsstring) (o : obj) :
  flat o -> flat (insert_index n k (JStr s) o).
Proof.
  induction 1 as [|[k' v'] o Hkv Ho IH]; cbn.
  - repeat constructor. now exists s.
  - assert (D : flat ((k, JStr s) :: (k', v') :: o)).
    { constructor; [now exists s|]. now constructor. }
    destruct (array_index k') as [m|]; [destruct (m <? n)|]; try exact D.
    now constructor.
Qed.

Lemma flat_obj_set (k s : jsstring) (o : obj) :
  flat o -> flat (obj_set k (JStr s) o).
Proof.
  intros H. unfold obj_set. destruct (has_key k o).
  - now apply flat_update.
  - destruct (array_index k).
    + now apply flat_insert_index.
    + apply Forall_app. split; [assumption|]. repeat constructor. now exists s.
Qed.

Lemma flat_define_all (props target : obj) :
  flat props -> flat target -> flat (define_all target props).
Proof.
  intros Hp. revert target. induction Hp as [|[k v] props [s Hs] _ IH];
    intros target Ht; cbn.
  - assumption.
  - apply IH. cbn in Hs. subst v. now apply flat_obj_set.
Qed.

(** Reading a property of the object that [JSON.parse] builds from
    properties without a repeated key. *)
Lemma obj_get_build_object (k : jsstring) (o : obj) :
  NoDup (keys o) -> obj_get k (build_object o) = obj_get k o.
Proof.
  intros H. unfold build_object. rewrite ObjFacts.obj_get_define_all by assumption.
  now destruct (obj_get k o).
Qed.

End FlatFacts.

Section More.

Variable fsPath : Uri.t -> jsstring.
Variable realpathSync : FS.value -> result jsstring.
Variable NumberToString : jsstring -> jsstring.

(** The query that the encoder writes, whatever the options. *)
Lemma query_toGitUri (uri : Uri.t) (ref : jsstring) (o : GitUriOptions) :
  Uri.query (toGitUri fsPath NumberToString uri ref o)
  = params_obj_text (fsPath uri) ref (effective_submodule o).
Proof.
  unfold effective_submodule.
  destruct (submoduleOf o) as [s|] eqn:E.
  - destruct (truthy s) eqn:T.
    + apply query_toGitUri_sub; [assumption | now apply JSFacts.truthy_true].
    + apply query_toGitUri_plain. rewrite E. exact T.
  - apply query_toGitUri_plain. now rewrite E.
Qed.

Lemma decode_toGitUri (uri : Uri.t) (ref : jsstring) (o : GitUriOptions) :
  fromGitUri (toGitUri fsPath NumberToString uri ref o)
  = Ok (JObj (params_obj (fsPath uri) ref (effective_submodule o))).
Proof.
  unfold fromGitUri. rewrite query_toGitUri.
  apply MoreFacts.parse_params_obj_text.
Qed.

(** Resolving the [path] of a record that the encoder wrote. *)
Lemma resolved_params_obj (p r : jsstring) (sub : option jsstring) :
  resolved_params realpathSync (JObj (params_obj p r sub))
  = JObj (params_obj (canonical_or_same realpathSync p) r sub).
Proof.
  unfold resolved_params, canonical_or_same.
  assert (G : get_path (JObj (params_obj p r sub)) = Ok (Some (JStr p)))
    by now destruct sub.
  rewrite G.
  destruct (realpathSync (Some (JStr p))); [|reflexivity].
  now destruct sub.
Qed.

Lemma params_lookups_obj (p r : jsstring) (sub : option jsstring) :
  params_lookups (JObj (params_obj p r sub)) = [Some (JStr p)].
Proof. now destruct sub. Qed.


(** ** [resolveUri] *)

(** X1.  [resolveUri] returns and does not throw; it makes one call to
    [fs.realpathSync], for the path of the identifier; the result has the
    resolved path (the path itself when the call threw) and the scheme,
    authority, query and fragment of the identifier. *)
Theorem X1_resolveUri_only_path (uri : Uri.t) (l : FS.log) :
  exists r,
    resolveUri realpathSync uri l = (Ok r, l ++ [Some (JStr (Uri.path uri))])
    /\ Uri.path r = canonical_or_same realpathSync (Uri.path uri)
    /\ Uri.scheme r = Uri.scheme uri
    /\ Uri.authority r = Uri.authority uri
    /\ Uri.query r = Uri.query uri
    /\ Uri.fragment r = Uri.fragment uri.
Proof.
  exists (resolved_uri realpathSync uri).
  split; [apply resolveUri_run | now repeat split].
Qed.

(** ** [resolveUriWithGitScheme] *)

(** X2.  [resolveUriWithGitScheme] returns and does not throw, and the
    result has the scheme, the authority and the fragment of its
    argument: a git identifier stays one, any other does not become
    one. *)
Theorem X2_resolveUriWithGitScheme_frame (uri : Uri.t) (l : FS.log) :
  exists r l',
    resolveUriWithGitScheme realpathSync NumberToString uri l = (Ok r, l')
    /\ Uri.scheme r = Uri.scheme uri
    /\ Uri.authority r = Uri.authority uri
    /\ Uri.fragment r = Uri.fragment uri
    /\ isGitUri r = isGitUri uri.
Proof.
  pose proof (resolveUriWithGitScheme_run realpathSync NumberToString uri l)
    as R. cbn zeta in R.
  destruct (truthy (Uri.query uri));
    [destruct (JSON.parse (Uri.query uri))|];
    eexists _, _; (split; [exact R|]); now repeat split.
Qed.

(** X3.  The query of the result.  An empty query stays empty.  A query
    that decodes to an object whose properties are all strings, as the
    encoder writes them, is replaced by a query that decodes again, to an
    object in which [path] reads as the resolved path when
    [fs.realpathSync] returned one, and as before when it threw, and in
    which every other property reads as before. *)
Theorem X3_resolveUriWithGitScheme_query (uri : Uri.t) (l : FS.log) :
  (Uri.query uri = [] ->
   exists r l',
     resolveUriWithGitScheme realpathSync NumberToString uri l = (Ok r, l')
     /\ Uri.query r = [])
  /\ (forall o,
        Uri.query uri <> [] ->
        fromGitUri uri = Ok (JObj o) ->
        flat o ->
        exists r l' o',
          resolveUriWithGitScheme realpathSync NumberToString uri l
          = (Ok r, l')
          /\ fromGitUri r = Ok (JObj o')
          /\ (forall k, k <> k_path -> obj_get k o' = obj_get k o)
          /\ (forall q, realpathSync (obj_get k_path o) = Ok q ->
                obj_get k_path o' = Some (JStr q))
          /\ (forall e, realpathSync (obj_get k_path o) = Throw e ->
                obj_get k_path o' = obj_get k_path o)).
Proof.
  pose proof (resolveUriWithGitScheme_run realpathSync NumberToString uri l)
    as R. cbn zeta in R.
  split.
  - intros Hq. rewrite Hq in R. cbn [truthy] in R.
    eexists _, _. split; [exact R|]. reflexivity.
  - intros o Hq Hv Hf. unfold fromGitUri in Hv.
    pose proof (ObjFacts.parse_object_NoDup _ _ Hv) as Hn.
    apply JSFacts.truthy_true in Hq. rewrite Hq, Hv in R.
    unfold resolved_params in R. cbn [get_path] in R.
    destruct (realpathSync (obj_get k_path o)) as [q|e] eqn:E.
    + set (o2 := obj_set k_path (JStr q) (spread (JObj o))) in R.
      assert (F2 : flat o2).
      { apply FlatFacts.flat_obj_set. apply FlatFacts.flat_define_all; [exact Hf | constructor]. }
      assert (N2 : NoDup (keys o2)).
      { apply ObjFacts.NoDup_obj_set, ObjFacts.NoDup_define_all. constructor. }
      eexists _, _, (build_object o2). split; [exact R|].
      split; [unfold fromGitUri; cbn [Uri.query];
              now apply FlatFacts.parse_stringify_flat|].
      split; [|split].
      * intros k Hk. rewrite FlatFacts.obj_get_build_object by assumption.
        unfold o2. rewrite ObjFacts.obj_get_obj_set.
        apply JSFacts.str_eqb_neq in Hk. rewrite Hk.
        now apply ObjFacts.obj_get_spread.
      * intros q' [= <-]. rewrite FlatFacts.obj_get_build_object by assumption.
        unfold o2. rewrite ObjFacts.obj_get_obj_set.
        now rewrite JSFacts.str_eqb_refl.
      * intros e' H. discriminate.
    + eexists _, _, (build_object o). split; [exact R|].
      split; [unfold fromGitUri; cbn [Uri.query];
              now apply FlatFacts.parse_stringify_flat|].
      split; [|split].
      * intros k _. now apply FlatFacts.obj_get_build_object.
      * intros q H. discriminate.
      * intros e' _. now apply FlatFacts.obj_get_build_object.
Qed.

(** X4.  The calls to [fs.realpathSync]: the first is for the path of the
    identifier (without its last four units when [/.git$/] matches), and
    it is made whatever the query is; an empty query and a query that is
    not JSON add none; a query that is JSON adds those of decoding with
    resolution, one at most. *)
Theorem X4_resolveUriWithGitScheme_lookups (uri : Uri.t) (l : FS.log) :
  exists r target extra,
    resolveUriWithGitScheme realpathSync NumberToString uri l
    = (Ok r, l ++ Some (JStr target) :: extra)
    /\ target
       = (if RegExp.test re_any_git (Uri.path uri)
          then RegExp.replace re_any_git (Uri.path uri) []
          else Uri.path uri)
    /\ (List.length extra <= 1)%nat
    /\ (Uri.query uri = [] -> extra = [])
    /\ (forall e, JSON.parse (Uri.query uri) = Throw e -> extra = [])
    /\ (forall v, Uri.query uri <> [] -> JSON.parse (Uri.query uri) = Ok v ->
          extra = params_lookups v).
Proof.
  pose proof (resolveUriWithGitScheme_run realpathSync NumberToString uri l)
    as R. cbn zeta in R.
  destruct (truthy (Uri.query uri)) eqn:T.
  - apply JSFacts.truthy_true in T.
    destruct (JSON.parse (Uri.query uri)) as [v|e] eqn:E.
    + rewrite <- app_assoc in R. cbn [app] in R.
      eexists _, _, _. split; [exact R|]. split; [reflexivity|].
      repeat split.
      * unfold params_lookups. destruct (get_path v); cbn; lia.
      * intros Hq. contradiction.
      * intros e H. discriminate.
      * intros v' _ [= <-]. reflexivity.
    + eexists _, _, []. split; [exact R|]. split; [reflexivity|].
      repeat split; try reflexivity. { cbn; lia. }
      intros v _ H. discriminate.
  - eexists _, _, []. split; [exact R|]. split; [reflexivity|].
    repeat split; try reflexivity. { cbn; lia. }
    intros v Hq _. apply JSFacts.truthy_true in Hq. congruence.
Qed.

(** ** [fromGitUriAndResolve] *)

(** X5.  Decoding with resolution is as strict as decoding: when the
    query is not a JSON text it throws the parser's [SyntaxError], before
    any call to [fs.realpathSync]. *)
Theorem X5_fromGitUriAndResolve_strict (uri : Uri.t) (l : FS.log) :
  ~ Grammar.valid (Uri.query uri) ->
  fromGitUriAndResolve realpathSync uri l = (Throw SyntaxError, l).
Proof.
  intros H. apply GrammarFacts.parse_throws_iff in H.
  now apply fromGitUriAndResolve_throw.
Qed.

(** X6.  When the query is valid JSON, decoding with resolution calls
    [fs.realpathSync] once, with the [path] property of the decoded value
    ([undefined] when it has none), unless the value is [null]: reading
    [path] throws then, and no call is made. *)
Theorem X6_fromGitUriAndResolve_lookups (uri : Uri.t) (v : json) (l : FS.log) :
  JSON.parse (Uri.query uri) = Ok v ->
  exists r l',
    fromGitUriAndResolve realpathSync uri l = (Ok r, l')
    /\ (v = JNull -> l' = l /\ r = JNull)
    /\ (v <> JNull ->
        l' = l ++ [match v with JObj o => obj_get k_path o | _ => None end]).
Proof.
  intros E. eexists _, _.
  split; [exact (fromGitUriAndResolve_run realpathSync uri v l E)|].
  split.
  - intros ->. cbn. now rewrite app_nil_r.
  - intros H. destruct v; try reflexivity. contradiction.
Qed.

(** ** Encoding, then decoding or resolving *)

(** X7.  Decoding with resolution what the encoder wrote gives the record
    that was encoded with its [path] resolved (the same record when the
    path does not resolve), [ref] and [submoduleOf] as they were; the one
    call to [fs.realpathSync] is for the file-system path of the source. *)
Theorem X7_encode_then_decode_and_resolve
  (uri : Uri.t) (ref : jsstring) (o : GitUriOptions) (l : FS.log) :
  fromGitUriAndResolve realpathSync
    (toGitUri fsPath NumberToString uri ref o) l
  = (Ok (JObj (params_obj (canonical_or_same realpathSync (fsPath uri)) ref
                 (effective_submodule o))),
     l ++ [Some (JStr (fsPath uri))]).
Proof.
  rewrite (fromGitUriAndResolve_run realpathSync _ _ l
             (decode_toGitUri uri ref o)).
  now rewrite resolved_params_obj, params_lookups_obj.
Qed.

(** X8.  Resolving what the encoder wrote gives a git identifier again,
    which decodes to the encoded record with its [path] resolved. *)
Theorem X8_encode_then_resolve
  (uri : Uri.t) (ref : jsstring) (o : GitUriOptions) (l : FS.log) :
  exists r l',
    resolveUriWithGitScheme realpathSync NumberToString
      (toGitUri fsPath NumberToString uri ref o) l = (Ok r, l')
    /\ isGitUri r = true
    /\ fromGitUri r
       = Ok (JObj (params_obj (canonical_or_same realpathSync (fsPath uri))
                     ref (effective_submodule o))).
Proof.
  pose proof (resolveUriWithGitScheme_run realpathSync NumberToString
                (toGitUri fsPath NumberToString uri ref o) l) as R.
  cbn zeta in R.
  pose proof (decode_toGitUri uri ref o) as D. unfold fromGitUri in D.
  rewrite D in R.
  rewrite (query_toGitUri uri ref o), MoreFacts.truthy_params_obj_text in R.
  eexists _, _. split; [exact R|]. split.
  - apply RegExpFacts.test_re_git. reflexivity.
  - unfold fromGitUri. cbn [Uri.query].
    rewrite resolved_params_obj, MoreFacts.stringify_params_obj.
    apply MoreFacts.parse_params_obj_text.
Qed.

(** X9.  With [replaceFileExtension], the [.git] that the encoder appended
    is set aside while the path is resolved and is put back: the result
    path is the resolved path of the source followed by [.git]. *)
Theorem X9_encode_git_suffix_then_resolve
  (uri : Uri.t) (ref : jsstring) (sub : option jsstring) (l : FS.log) :
  exists r l',
    resolveUriWithGitScheme realpathSync NumberToString
      (toGitUri fsPath NumberToString uri ref (mkOptions (Some true) sub)) l
    = (Ok r, l')
    /\ Uri.path r
       = canonical_or_same realpathSync (Uri.path uri) ++ s_dot_git.
Proof.
  set (o := mkOptions (Some true) sub).
  pose proof (resolveUriWithGitScheme_run realpathSync NumberToString
                (toGitUri fsPath NumberToString uri ref o) l) as R.
  cbn zeta in R.
  pose proof (decode_toGitUri uri ref o) as D. unfold fromGitUri in D.
  rewrite D in R.
  rewrite (query_toGitUri uri ref o), MoreFacts.truthy_params_obj_text in R.
  eexists _, _. split; [exact R|]. cbn [Uri.path].
  rewrite (path_toGitUri fsPath NumberToString uri ref o).
  cbn [o replaceFileExtension truthy_bool].
  change (Uri.path uri ++ s_dot_git) with (Uri.path uri ++ 46 :: s_git).
  rewrite RegExpFacts.test_any_git_hit by reflexivity.
  now rewrite RegExpFacts.replace_any_git_hit by reflexivity.
Qed.

(** X10.  The [.diff] that the encoder appends for a submodule is not set
    aside: the path is resolved with the suffix on, and nothing is
    appended afterwards. *)
Theorem X10_encode_diff_suffix_then_resolve
  (uri : Uri.t) (ref sub : jsstring) (rfe : option bool) (l : FS.log) :
  truthy_bool rfe = false -> sub <> [] ->
  exists r l',
    resolveUriWithGitScheme realpathSync NumberToString
      (toGitUri fsPath NumberToString uri ref (mkOptions rfe (Some sub))) l
    = (Ok r, l')
    /\ Uri.path r
       = canonical_or_same realpathSync (Uri.path uri ++ s_dot_diff).
Proof.
  intros Hr Hs. set (o := mkOptions rfe (Some sub)).
  pose proof (resolveUriWithGitScheme_run realpathSync NumberToString
                (toGitUri fsPath NumberToString uri ref o) l) as R.
  cbn zeta in R.
  pose proof (decode_toGitUri uri ref o) as D. unfold fromGitUri in D.
  rewrite D in R.
  rewrite (query_toGitUri uri ref o), MoreFacts.truthy_params_obj_text in R.
  eexists _, _. split; [exact R|]. cbn [Uri.path].
  rewrite (path_toGitUri fsPath NumberToString uri ref o).
  cbn [o replaceFileExtension submoduleOf truthy_opt]. rewrite Hr.
  apply JSFacts.truthy_true in Hs. rewrite Hs.
  rewrite RegExpFacts.test_any_git_miss; [reflexivity|].
  intros pre c E. exfalso.
  apply (MoreFacts.app_last_neq (Uri.path uri) pre 102 116
           [46; 100; 105; 102] [c; 103; 105]); [discriminate|exact E].
Qed.

(** X11.  The encoder is injective in what it encodes: two calls that
    return the same identifier had sources with the same file-system
    path, the same ref and the same [submoduleOf] (none and the empty
    string being the same). *)
Theorem X11_toGitUri_injective
  (u u' : Uri.t) (ref ref' : jsstring) (o o' : GitUriOptions) :
  toGitUri fsPath NumberToString u ref o
  = toGitUri fsPath NumberToString u' ref' o' ->
  fsPath u = fsPath u' /\ ref = ref'
  /\ effective_submodule o = effective_submodule o'.
Proof.
  intros E. apply (f_equal fromGitUri) in E.
  rewrite !decode_toGitUri in E.
  destruct (effective_submodule o), (effective_submodule o');
    cbn [params_obj] in E; inversion E; now repeat split.
Qed.

(** X12.  The three identifiers of [toMergeUris] are pairwise distinct. *)
Theorem X12_toMergeUris_distinct (uri : Uri.t) :
  let m := toMergeUris fsPath NumberToString uri in
  base m <> ours m /\ ours m <> theirs m /\ base m <> theirs m.
Proof.
  cbn zeta. unfold toMergeUris; cbn [base ours theirs].
  repeat split; intros E; apply (f_equal fromGitUri) in E;
    rewrite !decode_toGitUri in E; discriminate E.
Qed.


(** ** The batch resolvers *)

Lemma resolveWorkspaceFolders_run (folders : list WorkspaceFolder) (l : FS.log) :
  resolveWorkspaceFolders realpathSync (Some folders) l
  = (Ok (List.map
           (fun f => mkWorkspaceFolder (resolved_uri realpathSync (wf_uri f))
                       (wf_name f) (wf_index f))
           folders),
     l ++ List.map (fun f => Some (JStr (Uri.path (wf_uri f)))) folders).
Proof.
  unfold resolveWorkspaceFolders. apply for_each_run.
  intros x l0. unfold FS.bind. now rewrite resolvePath_run.
Qed.

Lemma resolveWindowVisibleTextEditors_run {D E : Type}
  (editors : list (TextEditor D E)) (l : FS.log) :
  resolveWindowVisibleTextEditors realpathSync editors l
  = (Ok (List.map
           (fun e => mkTextEditor
                       (mkTextDocument
                          (resolved_uri realpathSync (doc_uri (document e)))
                          (doc_rest (document e)))
                       (editor_rest e))
           editors),
     l ++ List.map (fun e => Some (JStr (Uri.path (doc_uri (document e)))))
            editors).
Proof.
  unfold resolveWindowVisibleTextEditors. apply for_each_run.
  intros x l0. unfold FS.bind. now rewrite resolveUri_run.
Qed.

(** X13.  The batch resolvers call [fs.realpathSync] once for each
    element, with the path of its identifier, in the order of the
    input. *)
Theorem X13_batch_lookups :
  (forall folders l,
     snd (resolveWorkspaceFolders realpathSync (Some folders) l)
     = l ++ List.map (fun f => Some (JStr (Uri.path (wf_uri f)))) folders)
  /\ (forall (D E : Type) (editors : list (TextEditor D E)) l,
        snd (resolveWindowVisibleTextEditors realpathSync editors l)
        = l ++ List.map
                 (fun e => Some (JStr (Uri.path (doc_uri (document e)))))
                 editors).
Proof.
  split.
  - intros folders l. now rewrite resolveWorkspaceFolders_run.
  - intros D E editors l. now rewrite resolveWindowVisibleTextEditors_run.
Qed.

(** X18.  On a file system where [fs.realpathSync] always throws,
    decoding with resolution returns, or throws, what decoding does. *)
Theorem X18_no_resolution_is_plain_decode (uri : Uri.t) (l : FS.log) :
  (forall arg, exists e, realpathSync arg = Throw e) ->
  fst (fromGitUriAndResolve realpathSync uri l) = fromGitUri uri.
Proof.
  intros H. unfold fromGitUri.
  destruct (JSON.parse (Uri.query uri)) as [v|e] eqn:E.
  - rewrite (fromGitUriAndResolve_run realpathSync uri v l E). cbn [fst].
    unfold resolved_params. destruct (get_path v) as [p|]; [|reflexivity].
    destruct (H p) as [e ->]. reflexivity.
  - now rewrite (fromGitUriAndResolve_throw realpathSync uri e l E).
Qed.

(** ** Resolving twice

    On a file system where a canonical path is its own canonical path,
    resolving what has been resolved changes nothing. *)

Section Fixed.

Hypothesis canonical_fixed :
  forall p q, realpathSync (Some (JStr p)) = Ok q ->
              realpathSync (Some (JStr q)) = Ok q.

Lemma canonical_or_same_twice (p : jsstring) :
  canonical_or_same realpathSync (canonical_or_same realpathSync p)
  = canonical_or_same realpathSync p.
Proof.
  unfold canonical_or_same.
  destruct (realpathSync (Some (JStr p))) as [q|e] eqn:E.
  - now rewrite (canonical_fixed p q E).
  - now rewrite E.
Qed.

Lemma resolved_uri_twice (u : Uri.t) :
  resolved_uri realpathSync (resolved_uri realpathSync u)
  = resolved_uri realpathSync u.
Proof.
  unfold resolved_uri. cbn [Uri.scheme Uri.authority Uri.path Uri.query
                             Uri.fragment].
  now rewrite canonical_or_same_twice.
Qed.

(** X14.  [resolveUri] of an identifier that [resolveUri] returned is
    that identifier. *)
Theorem X14_resolveUri_twice (uri : Uri.t) (l : FS.log) :
  exists r l1 l2,
    resolveUri realpathSync uri l = (Ok r, l1)
    /\ resolveUri realpathSync r l1 = (Ok r, l2).
Proof.
  eexists _, _, _. split; [apply resolveUri_run|].
  rewrite resolveUri_run. now rewrite resolved_uri_twice.
Qed.

(** X15.  Each batch resolver, run on its own result, returns that
    result. *)
Theorem X15_batch_twice :
  (forall folders l,
     exists out l1 l2,
       resolveWorkspaceFolders realpathSync (Some folders) l = (Ok out, l1)
       /\ resolveWorkspaceFolders realpathSync (Some out) l1 = (Ok out, l2))
  /\ (forall (D E : Type) (editors : list (TextEditor D E)) l,
        exists out l1 l2,
          resolveWindowVisibleTextEditors realpathSync editors l
          = (Ok out, l1)
          /\ resolveWindowVisibleTextEditors realpathSync out l1
             = (Ok out, l2)).
Proof.
  split.
  - intros folders l. eexists _, _, _.
    split; [apply resolveWorkspaceFolders_run|].
    rewrite resolveWorkspaceFolders_run. f_equal. f_equal.
    rewrite map_map. apply map_ext. intros f.
    cbn [wf_uri wf_name wf_index]. now rewrite resolved_uri_twice.
  - intros D E editors l. eexists _, _, _.
    split; [apply resolveWindowVisibleTextEditors_run|].
    rewrite resolveWindowVisibleTextEditors_run. f_equal. f_equal.
    rewrite map_map. apply map_ext. intros e.
    cbn [document doc_uri doc_rest editor_rest].
    now rewrite resolved_uri_twice.
Qed.

(** X16.  With an empty query and a path that ends in [.git],
    [resolveUriWithGitScheme] of an identifier that it returned is that
    identifier. *)
Theorem X16_resolveUriWithGitScheme_twice
  (uri : Uri.t) (pre : jsstring) (l : FS.log) :
  Uri.query uri = [] -> Uri.path uri = pre ++ s_dot_git ->
  exists r l1 l2,
    resolveUriWithGitScheme realpathSync NumberToString uri l = (Ok r, l1)
    /\ resolveUriWithGitScheme realpathSync NumberToString r l1 = (Ok r, l2).
Proof.
  intros Hq Hp.
  assert (step : forall u p l0,
             Uri.query u = [] -> Uri.path u = p ++ s_dot_git ->
             resolveUriWithGitScheme realpathSync NumberToString u l0
             = (Ok (Uri.mk (Uri.scheme u) (Uri.authority u)
                      (canonical_or_same realpathSync p ++ s_dot_git)
                      [] (Uri.fragment u)),
                l0 ++ [Some (JStr p)])).
  { intros u p l0 Gq Gp.
    pose proof (resolveUriWithGitScheme_run realpathSync NumberToString u l0)
      as R. cbn zeta in R. rewrite Gq in R. cbn [truthy] in R.
    rewrite Gp in R.
    change (p ++ s_dot_git) with (p ++ 46 :: s_git) in R.
    rewrite RegExpFacts.test_any_git_hit in R by reflexivity.
    rewrite RegExpFacts.replace_any_git_hit in R by reflexivity.
    exact R. }
  eexists _, _, _. split; [exact (step uri pre l Hq Hp)|].
  erewrite step; [|reflexivity|reflexivity].
  cbn [Uri.scheme Uri.authority Uri.fragment].
  now rewrite canonical_or_same_twice.
Qed.

End Fixed.

(** ** The dot of [/.git$/] *)

(** X17.  When the query is empty or valid JSON and the path ends in any
    unit other than a line terminator followed by [git], the last four
    units are set aside, what is left is resolved, and [.git] is
    appended: the unit before [git] is lost unless it was a dot. *)
Theorem X17_any_unit_before_git
  (uri : Uri.t) (pre : jsstring) (c : N) (l : FS.log) :
  (Uri.query uri = [] \/ exists v, JSON.parse (Uri.query uri) = Ok v) ->
  Uri.path uri = pre ++ c :: s_git ->
  RegExp.line_terminator c = false ->
  exists r l',
    resolveUriWithGitScheme realpathSync NumberToString uri l = (Ok r, l')
    /\ Uri.path r = canonical_or_same realpathSync pre ++ s_dot_git.
Proof.
  intros Hq Hp Hc.
  pose proof (resolveUriWithGitScheme_run realpathSync NumberToString uri l)
    as R. cbn zeta in R. rewrite Hp in R.
  rewrite RegExpFacts.test_any_git_hit in R by assumption.
  rewrite RegExpFacts.replace_any_git_hit in R by assumption.
  destruct (truthy (Uri.query uri)) eqn:T.
  - destruct Hq as [Hq|[v Hv]].
    + rewrite Hq in T. discriminate.
    + rewrite Hv in R. eexists _, _. split; [exact R|reflexivity].
  - eexists _, _. split; [exact R|reflexivity].
Qed.

End More.

(* ================================================================== *)
(** * The further properties at work in the small world *)

(** In the small world a canonical path is its own canonical path. *)
Lemma demo_canonical_fixed (p q : jsstring) :
  Demo.realpathSync (Some (JStr p)) = Ok q ->
  Demo.realpathSync (Some (JStr q)) = Ok q.
Proof.
  unfold Demo.realpathSync.
  destruct (str_eqb p (lit "/l")); [now intros [= <-]|].
  destruct (str_eqb p (lit "/t")); [now intros [= <-]|discriminate].
Qed.

Lemma X3_resolveUriWithGitScheme_query_witness :
  let u := Uri.mk s_git [] (lit "/l.git")
             (params_text (lit "/l") (lit "HEAD")) [] in
  Uri.query u <> []
  /\ fromGitUri u
     = Ok (JObj [(k_path, JStr (lit "/l")); (k_ref, JStr (lit "HEAD"))])
  /\ exists r l' o',
       resolveUriWithGitScheme Demo.realpathSync Demo.NumberToString u []
       = (Ok r, l')
       /\ fromGitUri r = Ok (JObj o')
       /\ obj_get k_ref o' = Some (JStr (lit "HEAD"))
       /\ obj_get k_path o' = Some (JStr (lit "/t")).
Proof.
  cbn zeta. split; [discriminate|]. split; [reflexivity|].
  destruct (proj2 (X3_resolveUriWithGitScheme_query Demo.realpathSync
                     Demo.NumberToString
                     (Uri.mk s_git [] (lit "/l.git")
                        (params_text (lit "/l") (lit "HEAD")) []) [])
              [(k_path, JStr (lit "/l")); (k_ref, JStr (lit "HEAD"))])
    as [r [l' [o' (H1 & H2 & H3 & H4 & _)]]].
  - discriminate.
  - reflexivity.
  - repeat constructor; eexists; reflexivity.
  - exists r, l', o'. split; [exact H1|]. split; [exact H2|]. split.
    + rewrite H3 by discriminate. reflexivity.
    + apply H4. reflexivity.
Defined.

Lemma X4_resolveUriWithGitScheme_lookups_witness :
  JSON.parse (Uri.query (Demo.file "/l.git" "x")) = Throw SyntaxError
  /\ exists r target,
       resolveUriWithGitScheme Demo.realpathSync Demo.NumberToString
         (Demo.file "/l.git" "x") []
       = (Ok r, [Some (JStr target)])
       /\ target = lit "/l".
Proof.
  split; [reflexivity|].
  destruct (X4_resolveUriWithGitScheme_lookups Demo.realpathSync
              Demo.NumberToString (Demo.file "/l.git" "x") [])
    as [r [target [extra (H1 & H2 & _ & _ & H3 & _)]]].
  rewrite (H3 SyntaxError eq_refl) in H1.
  exists r, target. split; [exact H1 | exact H2].
Defined.

Lemma X5_fromGitUriAndResolve_strict_witness :
  ~ Grammar.valid (Uri.query (Demo.file "/l" "x"))
  /\ fromGitUriAndResolve Demo.realpathSync (Demo.file "/l" "x") []
     = (Throw SyntaxError, []).
Proof.
  assert (H : ~ Grammar.valid (Uri.query (Demo.file "/l" "x")))
    by (apply GrammarFacts.parse_throws_iff; reflexivity).
  split; [exact H|].
  exact (X5_fromGitUriAndResolve_strict Demo.realpathSync
           (Demo.file "/l" "x") [] H).
Defined.

Lemma X6_fromGitUriAndResolve_lookups_witness :
  JSON.parse (Uri.query (Demo.file "/l" "null")) = Ok JNull
  /\ exists r l',
       fromGitUriAndResolve Demo.realpathSync (Demo.file "/l" "null") []
       = (Ok r, l')
       /\ l' = [] /\ r = JNull.
Proof.
  split; [reflexivity|].
  destruct (X6_fromGitUriAndResolve_lookups Demo.realpathSync
              (Demo.file "/l" "null") JNull [] eq_refl)
    as [r [l' [H1 [H2 _]]]].
  exists r, l'. split; [exact H1|]. apply H2. reflexivity.
Defined.

Lemma X10_encode_diff_suffix_then_resolve_witness :
  truthy_bool None = false /\ lit "/t" <> []
  /\ exists r l',
       resolveUriWithGitScheme Demo.realpathSync Demo.NumberToString
         (toGitUri Demo.fsPath Demo.NumberToString (Demo.plain "/l")
            (lit "HEAD") (mkOptions None (Some (lit "/t")))) []
       = (Ok r, l')
       /\ Uri.path r = lit "/l.diff".
Proof.
  split; [reflexivity|]. split; [discriminate|].
  destruct (X10_encode_diff_suffix_then_resolve Demo.fsPath
              Demo.realpathSync Demo.NumberToString (Demo.plain "/l")
              (lit "HEAD") (lit "/t") None [] eq_refl)
    as [r [l' [H1 H2]]]; [discriminate|].
  exists r, l'. split; [exact H1|]. rewrite H2. reflexivity.
Defined.

Lemma X11_toGitUri_injective_witness :
  toGitUri Demo.fsPath Demo.NumberToString (Demo.file "/repo/a.txt" "q")
    (lit "HEAD") default_options
  = toGitUri Demo.fsPath Demo.NumberToString (Demo.plain "/repo/a.txt")
      (lit "HEAD") (mkOptions (Some false) (Some []))
  /\ Demo.fsPath (Demo.file "/repo/a.txt" "q")
     = Demo.fsPath (Demo.plain "/repo/a.txt").
Proof.
  split; [reflexivity|].
  apply (X11_toGitUri_injective Demo.fsPath Demo.NumberToString
           (Demo.file "/repo/a.txt" "q") (Demo.plain "/repo/a.txt")
           (lit "HEAD") (lit "HEAD")
           default_options (mkOptions (Some false) (Some []))).
  reflexivity.
Defined.

Lemma X18_no_resolution_is_plain_decode_witness :
  (forall arg : FS.value,
     exists e, (fun _ => Throw (SystemError [])) arg = @Throw jsstring e)
  /\ fst (fromGitUriAndResolve (fun _ => Throw (SystemError []))
            (Demo.file "/l" "null") [])
     = fromGitUri (Demo.file "/l" "null").
Proof.
  assert (H : forall arg : FS.value,
             exists e, (fun _ => Throw (SystemError [])) arg
                       = @Throw jsstring e)
    by (intros arg; eexists; reflexivity).
  split; [exact H|].
  exact (X18_no_resolution_is_plain_decode (fun _ => Throw (SystemError []))
           (Demo.file "/l" "null") [] H).
Defined.

Lemma X14_resolveUri_twice_witness :
  exists r l1 l2,
    resolveUri Demo.realpathSync (Demo.plain "/l") [] = (Ok r, l1)
    /\ resolveUri Demo.realpathSync r l1 = (Ok r, l2).
Proof.
  exact (X14_resolveUri_twice Demo.realpathSync demo_canonical_fixed
           (Demo.plain "/l") []).
Defined.

Lemma X15_batch_twice_witness :
  exists out l1 l2,
    resolveWorkspaceFolders Demo.realpathSync
      (Some [mkWorkspaceFolder (Demo.plain "/l") (lit "work") 0]) []
    = (Ok out, l1)
    /\ resolveWorkspaceFolders Demo.realpathSync (Some out) l1 = (Ok out, l2).
Proof.
  exact (proj1 (X15_batch_twice Demo.realpathSync demo_canonical_fixed)
           [mkWorkspaceFolder (Demo.plain "/l") (lit "work") 0] []).
Defined.

Lemma X16_resolveUriWithGitScheme_twice_witness :
  Uri.query (Demo.plain "/l.git") = []
  /\ Uri.path (Demo.plain "/l.git") = lit "/l" ++ s_dot_git
  /\ exists r l1 l2,
       resolveUriWithGitScheme Demo.realpathSync Demo.NumberToString
         (Demo.plain "/l.git") [] = (Ok r, l1)
       /\ resolveUriWithGitScheme Demo.realpathSync Demo.NumberToString r l1
          = (Ok r, l2).
Proof.
  split; [reflexivity|]. split; [reflexivity|].
  exact (X16_resolveUriWithGitScheme_twice Demo.realpathSync
           Demo.NumberToString demo_canonical_fixed
           (Demo.plain "/l.git") (lit "/l") [] eq_refl eq_refl).
Defined.

Lemma X17_any_unit_before_git_witness :
  Uri.query (Demo.plain "/a/digit") = []
  /\ Uri.path (Demo.plain "/a/digit") = lit "/a/d" ++ 105 :: s_git
  /\ RegExp.line_terminator 105 = false
  /\ exists r l',
       resolveUriWithGitScheme Demo.realpathSync Demo.NumberToString
         (Demo.plain "/a/digit") [] = (Ok r, l')
       /\ Uri.path r = lit "/a/d.git".
Proof.
  split; [reflexivity|]. split; [reflexivity|]. split; [reflexivity|].
  destruct (X17_any_unit_before_git Demo.realpathSync Demo.NumberToString
              (Demo.plain "/a/digit") (lit "/a/d") 105 []
              (or_introl eq_refl) eq_refl eq_refl)
    as [r [l' [H1 H2]]].
  exists r, l'. split; [exact H1|]. rewrite H2. reflexivity.
Defined.
